(** * Web_larek: catalog, basket, order validation and form fields

    A shallow embedding of [src/types/index.ts].

    Conventions of the embedding:
    - a JavaScript string is its sequence of UTF-16 code units, [list N];
      literals are written [js "..."] and decoded from the UTF-8 text of
      this file;
    - a JavaScript [number] is an integer of [Z]: the prices, totals and
      indices of the program are integers (NaN, infinities and fractions
      are outside the embedding), and a number given to the program is
      an integer that a double holds. Numbers are binary64 doubles, so a
      sum or a conversion to text is followed only on the integers of
      magnitude at most 2^53, where doubles are exact: [add] and
      [ToString] give [None] outside, and so does a method whose result
      would depend on such a value;
    - [undefined] is [None]; a class field declared without an initialiser
      holds [undefined] until something assigns it;
    - a method that may throw returns a [Completion]; an [async] method or
      a method returning a promise returns the settled [Promise];
    - a plain object used as a dictionary is the [gmap] of its own
      properties; an assignment to the key [__proto__] goes to the setter
      of [Object.prototype], which ignores a value that is a string or
      [undefined], and creates no property. *)

From Stdlib Require Import ZArith NArith String Ascii DecimalString.
From stdpp Require Import base numbers option list gmap fin_maps.

Local Open Scope Z_scope.

(** ** JavaScript strings *)

Abbreviation JSString := (list N).

(** UTF-8 bytes to UTF-16 code units, for the code points of the Basic
    Multilingual Plane (all literals of the program lie there). *)
Fixpoint utf16_of_utf8 (bs : list N) : JSString :=
  match bs with
  | [] => []
  | b0 :: r0 =>
    if (b0 <? 0x80)%N then b0 :: utf16_of_utf8 r0
    else
      match r0 with
      | [] => []
      | b1 :: r1 =>
        if (b0 <? 0xE0)%N then
          N.lor (N.shiftl (N.land b0 0x1F) 6) (N.land b1 0x3F)
            :: utf16_of_utf8 r1
        else
          match r1 with
          | [] => []
          | b2 :: r2 =>
            N.lor (N.shiftl (N.land b0 0x0F) 12)
              (N.lor (N.shiftl (N.land b1 0x3F) 6) (N.land b2 0x3F))
              :: utf16_of_utf8 r2
          end
      end
  end.

Definition js (s : string) : JSString :=
  utf16_of_utf8 (N_of_ascii <$> list_ascii_of_string s).

(** The integers on which binary64 arithmetic is exact. *)
Definition exact (n : Z) : bool := (- 2 ^ 53 <=? n) && (n <=? 2 ^ 53).

(** [a + b] on numbers: the sum when both operands and the sum are
    integers that doubles hold exactly, where no rounding takes place. *)
Definition add (a b : Z) : option Z :=
  if exact a && exact b && exact (a + b) then Some (a + b) else None.

(** [String(n)] for an integer [n] that doubles hold exactly: its decimal
    digits. *)
Definition ToString (n : Z) : option JSString :=
  if exact n then Some (js (NilZero.string_of_int (Z.to_int n))) else None.

(** [a === b] on strings. *)
Definition strict_eq (a b : JSString) : bool := bool_decide (a = b).

(** WhiteSpace and LineTerminator code points of ECMAScript, the ones
    [String.prototype.trim] strips. *)
Definition isWhiteSpace (c : N) : bool :=
  bool_decide (c ∈ [0x9; 0xA; 0xB; 0xC; 0xD; 0x20; 0xA0; 0x1680; 0x2028;
                     0x2029; 0x202F; 0x205F; 0x3000; 0xFEFF]%N)
  || ((0x2000 <=? c) && (c <=? 0x200A))%N.

Fixpoint trimStart (s : JSString) : JSString :=
  match s with
  | [] => []
  | c :: r => if isWhiteSpace c then trimStart r else s
  end.

Definition trimEnd (s : JSString) : JSString := rev (trimStart (rev s)).

Definition trim (s : JSString) : JSString := trimEnd (trimStart s).

(** ** Completions and promises *)

Inductive JSError : Type :=
| TypeError.

Inductive Completion (A : Type) : Type :=
| Normal (a : A)
| Throw (e : JSError).
Arguments Normal {A} a.
Arguments Throw {A} e.

Definition failed {A} (c : Completion A) : bool :=
  match c with Normal _ => false | Throw _ => true end.

Inductive Promise (A : Type) : Type :=
| Resolved (a : A)
| Rejected (reason : JSString).
Arguments Resolved {A} a.
Arguments Rejected {A} reason.

(** ** Items *)

Module IItemModel.
Record t : Type := mk {
  id : JSString;
  name : JSString;
  price : Z;
  category : JSString;
  image : JSString;
  description : JSString
}.
End IItemModel.

Module BasketItem.
Record t : Type := mk {
  id : JSString;
  name : JSString;
  price : Z
}.
Definition new (data : IItemModel.t) : t :=
  {| id := IItemModel.id data;
     name := IItemModel.name data;
     price := IItemModel.price data |}.
End BasketItem.

Module CatalogItem.
Record t : Type := mk {
  id : JSString;
  name : JSString;
  price : Z;
  category : JSString;
  image : JSString;
  description : JSString
}.
Definition new (data : IItemModel.t) : t :=
  {| id := IItemModel.id data;
     name := IItemModel.name data;
     price := IItemModel.price data;
     category := IItemModel.category data;
     image := IItemModel.image data;
     description := IItemModel.description data |}.
End CatalogItem.

(** ** Lists *)

Module IList.
Record t (T : Type) : Type := mk {
  total : Z;
  items : list T
}.
Arguments mk {T} total items.
Arguments total {T} _.
Arguments items {T} _.
End IList.

Record IListAPI (D : Type) : Type := {
  loadItemsList : Promise (IList.t D)
}.
Arguments loadItemsList {D} _.

(** ** Orders *)

Inductive PaymentType : Type :=
| offline
| online.

Module OrderPostResponse.
Record t : Type := mk {
  id : JSString;
  total : Z
}.
End OrderPostResponse.

Module ErrorResponse.
Record t : Type := mk {
  error : JSString
}.
End ErrorResponse.

Module IOrderInfo.
Record t : Type := mk {
  payment : PaymentType;
  email : JSString;
  phone : JSString;
  address : option JSString;
  total : Z;
  items : list JSString
}.
End IOrderInfo.

(** [!s] for an optional string: [undefined] and the empty string are
    falsy, every other string is truthy. *)
Definition not_string (s : option JSString) : bool :=
  match s with
  | None => true
  | Some [] => true
  | Some (_ :: _) => false
  end.

(** [p || 0] for an optional number: [undefined] and [0] are falsy. *)
Definition or_zero (p : option Z) : Z :=
  match p with
  | None => 0
  | Some v => if v =? 0 then 0 else v
  end.

Module FakeItemsAPI.

Record t : Type := mk {
  total : Z;
  data : list IItemModel.t
}.

Definition new : t :=
  {| total := 10;
     data := [
       IItemModel.mk (js "0") (js "Товар 0") 0 (js "Категория 0") (js "Image 0.jpg") (js "Описание 0");
       IItemModel.mk (js "1") (js "Товар 1") 1 (js "Категория 1") (js "Image 1.jpg") (js "Описание 1");
       IItemModel.mk (js "2") (js "Товар 2") 2 (js "Категория 2") (js "Image 2.jpg") (js "Описание 2");
       IItemModel.mk (js "3") (js "Товар 3") 3 (js "Категория 3") (js "Image 3.jpg") (js "Описание 3");
       IItemModel.mk (js "4") (js "Товар 4") 4 (js "Категория 4") (js "Image 4.jpg") (js "Описание 4");
       IItemModel.mk (js "5") (js "Товар 5") 5 (js "Категория 5") (js "Image 5.jpg") (js "Описание 5");
       IItemModel.mk (js "6") (js "Товар 6") 6 (js "Категория 6") (js "Image 6.jpg") (js "Описание 6");
       IItemModel.mk (js "7") (js "Товар 7") 7 (js "Категория 7") (js "Image 7.jpg") (js "Описание 7");
       IItemModel.mk (js "8") (js "Товар 8") 8 (js "Категория 8") (js "Image 8.jpg") (js "Описание 8");
       IItemModel.mk (js "9") (js "Товар 9") 9 (js "Категория 9") (js "Image 9.jpg") (js "Описание 9")
     ] |}.

Definition loadItemsList (this : t) : Promise (IList.t IItemModel.t) :=
  Resolved {| IList.total := total this; IList.items := data this |}.

Definition loadProduct (this : t) (id : JSString)
  : Promise (IItemModel.t + ErrorResponse.t) :=
  let item := find (λ item, strict_eq (IItemModel.id item) id) (data this) in
  Resolved match item with
           | Some item => inl item
           | None => inr {| ErrorResponse.error := js "NotFound" |}
           end.

(** The [for ... of] loop of [postOrder]: [Some e] when the loop returns
    the rejection [e], [None] when it runs to its end. *)
Fixpoint checkItems (this : t) (ids : list JSString)
  : option ErrorResponse.t :=
  match ids with
  | [] => None
  | orderedItemId :: rest =>
    let itemExists :=
      existsb (λ item, strict_eq (IItemModel.id item) orderedItemId)
              (data this) in
    if negb itemExists then
      Some {| ErrorResponse.error :=
                js "Товар с id " ++ orderedItemId ++ js " не найден" |}
    else checkItems this rest
  end.

(** The [reduce] of [postOrder]: [None] once an addition leaves the
    integers that doubles add exactly. *)
Definition calculatedTotal (this : t) (ids : list JSString) : option Z :=
  fold_left
    (λ sum itemId,
       let item := find (λ item, strict_eq (IItemModel.id item) itemId)
                        (data this) in
       sum ≫= λ sum, add sum (or_zero (IItemModel.price <$> item)))
    ids (Some 0).

(** [postOrder]: the promise returned, [None] when it depends on a sum
    that the embedding does not follow. *)
Definition postOrder (this : t) (orderInfo : IOrderInfo.t)
  : option (Promise (OrderPostResponse.t + ErrorResponse.t)) :=
  if not_string (IOrderInfo.address orderInfo) then
    Some (Resolved (inr {| ErrorResponse.error := js "Не указан адрес" |}))
  else
    match checkItems this (IOrderInfo.items orderInfo) with
    | Some e => Some (Resolved (inr e))
    | None =>
      calculatedTotal ← calculatedTotal this (IOrderInfo.items orderInfo);
      if negb (calculatedTotal =? IOrderInfo.total orderInfo) then
        Some (Resolved
                (inr {| ErrorResponse.error := js "Неверная сумма заказа" |}))
      else
        Some (Resolved
                (inl {| OrderPostResponse.id := js "test-order-id";
                        OrderPostResponse.total :=
                          IOrderInfo.total orderInfo |}))
    end.

Definition api (this : t) : IListAPI IItemModel.t :=
  Build_IListAPI _ (loadItemsList this).

End FakeItemsAPI.

(** ** Collections *)

(** [Array.prototype.splice(start, deleteCount)] with no inserted
    elements, for integer arguments: the array after the call. *)
Definition splice {T} (arr : list T) (start deleteCount : Z) : list T :=
  let len := Z.of_nat (length arr) in
  let actualStart :=
    if start <? 0 then Z.max (len + start) 0 else Z.min start len in
  let actualDeleteCount := Z.min (Z.max deleteCount 0) (len - actualStart) in
  take (Z.to_nat actualStart) arr
  ++ drop (Z.to_nat (actualStart + actualDeleteCount)) arr.

(** The abstract class [List<T>] (the module is not named [List], which
    is the list library's module): both fields are declared without an
    initialiser and no constructor assigns them. *)
Module AbstractList.
Record t (T : Type) : Type := mk {
  total : option Z;
  _items : option (list T)
}.
Arguments mk {T} total _items.
Arguments total {T} _.
Arguments _items {T} _.

Definition new {T} : t T := {| total := None; _items := None |}.

Definition items {T} (this : t T) : option (list T) := _items this.
End AbstractList.

Module LoadList.
Record t (T D : Type) : Type := mk {
  base : AbstractList.t T;
  _ItemConstructor : D → T;
  _api : IListAPI D
}.
Arguments mk {T D} base _ItemConstructor _api.
Arguments base {T D} _.
Arguments _ItemConstructor {T D} _.
Arguments _api {T D} _.

Definition new {T D} (ItemConstructor : D → T) (api : IListAPI D) : t T D :=
  {| base := AbstractList.new;
     _ItemConstructor := ItemConstructor;
     _api := api |}.

Definition total {T D} (this : t T D) : option Z :=
  AbstractList.total (base this).

Definition items {T D} (this : t T D) : option (list T) :=
  AbstractList.items (base this).
End LoadList.

Module CatalogList.

Abbreviation t := (LoadList.t CatalogItem.t IItemModel.t).

Definition new (api : IListAPI IItemModel.t) : t :=
  LoadList.new CatalogItem.new api.

(** [itemClick] only writes a line to the console: the result is the
    object after the call, the lines written and the completion. A line
    is [None] when its text depends on an index that [ToString] does not
    follow. *)
Definition itemClick (this : t) (itemIndex : Z)
  : t * list (option JSString) * Completion unit :=
  (this,
   [(λ index, js "Открытие карточки с товаром " ++ index)
      <$> ToString itemIndex],
   Normal tt).

(** [load]: the object after the call and the promise it returns. The
    two assignments run only once the awaited promise has resolved. *)
Definition load (this : t) : t * Promise unit :=
  match loadItemsList (LoadList._api this) with
  | Rejected reason => (this, Rejected reason)
  | Resolved data =>
    ({| LoadList.base :=
          {| AbstractList.total := Some (IList.total data);
             AbstractList._items :=
               Some (LoadList._ItemConstructor this <$> IList.items data) |};
        LoadList._ItemConstructor := LoadList._ItemConstructor this;
        LoadList._api := LoadList._api this |},
     Resolved tt)
  end.

End CatalogList.

Module BasketList.

Abbreviation t := (AbstractList.t BasketItem.t).

Definition new : t := AbstractList.new.

(** [this._items.push(item)]: reading [push] of [undefined] throws. *)
Definition addItem (this : t) (item : BasketItem.t) : t * Completion unit :=
  match AbstractList._items this with
  | None => (this, Throw TypeError)
  | Some arr =>
    ({| AbstractList.total := AbstractList.total this;
        AbstractList._items := Some (arr ++ [item]) |},
     Normal tt)
  end.

(** [this._items.splice(itemIndex, 1)]. *)
Definition delete (this : t) (itemIndex : Z) : t * Completion unit :=
  match AbstractList._items this with
  | None => (this, Throw TypeError)
  | Some arr =>
    ({| AbstractList.total := AbstractList.total this;
        AbstractList._items := Some (splice arr itemIndex 1) |},
     Normal tt)
  end.

End BasketList.

(** ** Form fields *)

(** The objects built by the two factories, tagged by [fieldType]. *)
Inductive IField : Type :=
| editText (fieldName hint value : JSString)
| radioButton (fieldName : JSString) (choices : list JSString)
              (selected : option JSString).

Definition fieldName (field : IField) : JSString :=
  match field with
  | editText fieldName _ _ => fieldName
  | radioButton fieldName _ _ => fieldName
  end.

Definition createEditTextField (fieldName hint : JSString) : IField :=
  editText fieldName hint [].

Definition createRadioButtonField (fieldName : JSString)
    (choices : list JSString) : IField :=
  radioButton fieldName choices (Some []).

(** The [isValid] method each factory installs. *)
Definition isValid (this : IField) : bool :=
  match this with
  | editText _ _ value => (0 <? length (trim value))%nat
  | radioButton _ _ selected => negb (bool_decide (selected = Some []))
  end.

(** The left operand of [&&] in [getFormData]: the method itself, not a
    call of it. *)
Inductive Gate : Type :=
| MethodReference
| CallResult (b : bool).

Definition ToBoolean (g : Gate) : bool :=
  match g with
  | MethodReference => true
  | CallResult b => b
  end.

(** [lhs && rhs]: the left operand when it is falsy, else the right. *)
Definition logical_and {A} (lhs : Gate) (rhs : A) : Gate + A :=
  if ToBoolean lhs then inr rhs else inl lhs.

Module OrderPopup.
Record t : Type := mk {
  bottomButtonText : JSString;
  fields : list IField
}.

Definition isValid (this : t) : bool :=
  forallb (λ field, isValid field) (fields this).

(** [fieldsData[key] = value] on a plain object, for a value that is a
    string or [undefined]: the key [__proto__] is the accessor inherited
    from [Object.prototype], whose setter ignores such a value; any other
    key becomes an own property. *)
Definition assign (fieldsData : gmap JSString (option JSString))
    (key : JSString) (value : option JSString)
  : gmap JSString (option JSString) :=
  if strict_eq key (js "__proto__") then fieldsData
  else <[key := value]> fieldsData.

(** The callback of the [reduce]: [fieldsData[field.fieldName] = ...]. *)
Definition collect (fieldsData : gmap JSString (option JSString))
    (field : IField) : gmap JSString (option JSString) :=
  match field with
  | editText fieldName _ value => assign fieldsData fieldName (Some value)
  | radioButton fieldName _ selected => assign fieldsData fieldName selected
  end.

Definition getFormData (this : t) : Gate + gmap JSString (option JSString) :=
  logical_and MethodReference (fold_left collect (fields this) ∅).

End OrderPopup.

Module BasketPopup.
Record t : Type := mk {
  title : JSString;
  bottomButtonText : JSString;
  list : AbstractList.t BasketItem.t
}.

Definition new (list : AbstractList.t BasketItem.t) : t :=
  {| title := js "Корзина";
     bottomButtonText := js "Оформить";
     list := list |}.

(** [this.list.items.reduce(...)]: reading [reduce] of [undefined]
    throws; the result is [None] once an addition leaves the integers
    that doubles add exactly. *)
Definition getTotal (this : t) : option (Completion Z) :=
  match AbstractList.items (list this) with
  | None => Some (Throw TypeError)
  | Some items =>
    Normal
      <$> fold_left (λ total item,
                       total ≫= λ total, add total (BasketItem.price item))
                    items (Some 0)
  end.
End BasketPopup.

(** ** The vocabulary of the specification *)

(** The canonical item set of the specification: the catalogue as a
    finite map from item id to item. Of two records with one id the
    earlier one is the entry, as for [Array.prototype.find]. *)
Definition canonical (data : list IItemModel.t)
  : gmap JSString IItemModel.t :=
  list_to_map ((λ item, (IItemModel.id item, item)) <$> data).

(** The expected total as the specification words it: the sum over the
    ordered ids of their canonical prices, defined when every id has
    one. *)
Fixpoint expectedTotal (canon : gmap JSString IItemModel.t)
    (ids : list JSString) : option Z :=
  match ids with
  | [] => Some 0
  | id :: rest =>
    match canon !! id, expectedTotal canon rest with
    | Some item, Some sum => Some (IItemModel.price item + sum)
    | _, _ => None
    end
  end.

Definition AddressMissing : ErrorResponse.t :=
  {| ErrorResponse.error := js "Не указан адрес" |}.

Definition ItemNotFound (id : JSString) : ErrorResponse.t :=
  {| ErrorResponse.error := js "Товар с id " ++ id ++ js " не найден" |}.

Definition TotalMismatch : ErrorResponse.t :=
  {| ErrorResponse.error := js "Неверная сумма заказа" |}.

Definition Confirmation (total : Z) : OrderPostResponse.t :=
  {| OrderPostResponse.id := js "test-order-id";
     OrderPostResponse.total := total |}.

(** The two kinds of result of [postOrder]: the promise resolved with a
    rejection, and the promise resolved with the confirmation. *)
Definition rejected (e : ErrorResponse.t)
  : option (Promise (OrderPostResponse.t + ErrorResponse.t)) :=
  Some (Resolved (inr e)).

Definition confirmed (total : Z)
  : option (Promise (OrderPostResponse.t + ErrorResponse.t)) :=
  Some (Resolved (inl (Confirmation total))).

(** The prices of the records are integers between 0 and [P]. With
    [P] times the number of ordered items at most 2^53, no addition of
    the validator or of the basket leaves the integers that doubles add
    exactly. *)
Definition pricedWithin (P : Z) (data : list IItemModel.t) : Prop :=
  Forall (λ item, 0 ≤ IItemModel.price item ≤ P) data.

(** The current value of a field: the text of a text field, the selected
    choice of a choice field ([undefined] when none is set). *)
Definition fieldValue (field : IField) : option JSString :=
  match field with
  | editText _ _ value => Some value
  | radioButton _ _ selected => selected
  end.

(** A call of one of the two mutators of a basket, and the basket after
    a sequence of such calls made one after the other (a call that throws
    leaves the basket as it was). *)
Inductive BasketCall : Type :=
| addItemCall (item : BasketItem.t)
| deleteCall (itemIndex : Z).

Definition call (this : BasketList.t) (c : BasketCall)
  : BasketList.t * Completion unit :=
  match c with
  | addItemCall item => BasketList.addItem this item
  | deleteCall itemIndex => BasketList.delete this itemIndex
  end.

Definition afterCalls (this : BasketList.t) (cs : list BasketCall)
  : BasketList.t :=
  fold_left (λ this c, fst (call this c)) cs this.

Definition isAddItemCall (c : BasketCall) : bool :=
  match c with addItemCall _ => true | deleteCall _ => false end.

(** ** Objects for the runs *)

(** An order request with the given address, total and items. *)
Definition order (address : option JSString) (total : Z)
    (items : list JSString) : IOrderInfo.t :=
  {| IOrderInfo.payment := online;
     IOrderInfo.email := js "a@b.c";
     IOrderInfo.phone := js "+7 (900) 000-00-00";
     IOrderInfo.address := address;
     IOrderInfo.total := total;
     IOrderInfo.items := items |}.

(** A basket whose array has been assigned: no method of the class
    assigns it, so such a basket comes from outside the class. *)
Definition basketOf (arr : list BasketItem.t) : BasketList.t :=
  {| AbstractList.total := None; AbstractList._items := Some arr |}.

Definition itemA : BasketItem.t := BasketItem.mk (js "1") (js "A") 1.
Definition itemB : BasketItem.t := BasketItem.mk (js "2") (js "B") 2.
Definition itemC : BasketItem.t := BasketItem.mk (js "3") (js "C") 3.

(** The program's own catalogue after its [load]. *)
Definition catalogLoadList : CatalogList.t :=
  fst (CatalogList.load (CatalogList.new (FakeItemsAPI.api FakeItemsAPI.new))).

(** A collaborator whose promise is rejected. *)
Definition failingAPI : IListAPI IItemModel.t :=
  Build_IListAPI _ (Rejected (js "offline")).

(** The program's first form, as constructed: nothing is selected and
    nothing is typed. *)
Definition orderPopup1 : OrderPopup.t :=
  {| OrderPopup.bottomButtonText := js "Далее";
     OrderPopup.fields :=
       [createRadioButtonField (js "Способ оплаты")
          [js "Онлайн"; js "При получении"];
        createEditTextField (js "Адрес доставки") (js "Введите адрес")] |}.

(** * Runs of the model on the program's own data *)

Example js_cyrillic : js "Не" = [0x41D; 0x435]%N.
Proof. reflexivity. Qed.

Example ToString_negative : ToString (-12) = Some (js "-12").
Proof. reflexivity. Qed.

Example ToString_beyond : ToString (10 ^ 21) = None.
Proof. reflexivity. Qed.

Example add_exact : add (2 ^ 53 - 1) 1 = Some (2 ^ 53).
Proof. reflexivity. Qed.

Example add_beyond : add (2 ^ 53) 1 = None.
Proof. reflexivity. Qed.

Example trim_spaces : trim (js "  x y ") = js "x y".
Proof. reflexivity. Qed.

Example postOrder_end_to_end :
  FakeItemsAPI.postOrder FakeItemsAPI.new
    (IOrderInfo.mk online [] [] (Some (js "Lenina 1")) 7 [js "2"; js "5"])
  = Some (Resolved (inl (OrderPostResponse.mk (js "test-order-id") 7))).
Proof. vm_compute. reflexivity. Qed.

Example splice_from_end : splice [1; 2; 3] (-1) 1 = [1; 2].
Proof. reflexivity. Qed.

Example splice_clamped : splice [1; 2; 3] (-5) 1 = [2; 3].
Proof. reflexivity. Qed.

(** * The order validator *)

Lemma or_zero_Some (p : Z) : or_zero (Some p) = p.
Proof. unfold or_zero. destruct (Z.eqb_spec p 0); congruence. Qed.

Lemma not_string_false (s : option JSString) :
  not_string s = false ↔ ∃ a, s = Some a ∧ a ≠ [].
Proof.
  split.
  - destruct s as [[|c r]|]; simpl; try discriminate.
    intros _. by exists (c :: r).
  - intros (a & -> & Ha). by destruct a.
Qed.

Lemma add_within (a b : Z) :
  0 ≤ a → 0 ≤ b → a + b ≤ 2 ^ 53 → add a b = Some (a + b).
Proof.
  intros Ha Hb Hsum. unfold add, exact.
  destruct (Z.leb_spec (- 2 ^ 53) a); [|lia].
  destruct (Z.leb_spec a (2 ^ 53)); [|lia].
  destruct (Z.leb_spec (- 2 ^ 53) b); [|lia].
  destruct (Z.leb_spec b (2 ^ 53)); [|lia].
  destruct (Z.leb_spec (- 2 ^ 53) (a + b)); [|lia].
  by destruct (Z.leb_spec (a + b) (2 ^ 53)); [|lia].
Qed.

Lemma find_canonical (data : list IItemModel.t) (id : JSString) :
  find (λ item, strict_eq (IItemModel.id item) id) data = canonical data !! id.
Proof.
  unfold canonical.
  induction data as [|item data IH]; [done|].
  cbn [find fmap list_fmap list_to_map foldr]. unfold strict_eq at 1.
  rewrite lookup_insert. cbn [fst snd].
  case_bool_decide; case_decide; done.
Qed.

Lemma existsb_canonical (data : list IItemModel.t) (id : JSString) :
  existsb (λ item, strict_eq (IItemModel.id item) id) data
  = bool_decide (is_Some (canonical data !! id)).
Proof.
  rewrite <- find_canonical.
  induction data as [|item data IH]; cbn [existsb find orb].
  - symmetry. apply bool_decide_eq_false_2. by intros [? ?].
  - destruct (strict_eq (IItemModel.id item) id); cbn [orb]; [|done].
    symmetry. apply bool_decide_eq_true_2. eauto.
Qed.

Lemma canonical_elem (data : list IItemModel.t) (id : JSString)
    (item : IItemModel.t) :
  canonical data !! id = Some item → item ∈ data.
Proof.
  rewrite <- find_canonical. intros [Hin _]%find_some.
  by apply list_elem_of_In.
Qed.

Section OrderValidator.

Variable this : FakeItemsAPI.t.

Local Abbreviation canon := (canonical (FakeItemsAPI.data this)).

Lemma checkItems_cons (id : JSString) (rest : list JSString) :
  FakeItemsAPI.checkItems this (id :: rest)
  = if bool_decide (is_Some (canon !! id))
    then FakeItemsAPI.checkItems this rest
    else Some (ItemNotFound id).
Proof.
  cbn [FakeItemsAPI.checkItems]. rewrite existsb_canonical.
  by case_bool_decide.
Qed.

Lemma checkItems_first_missing (pre post : list JSString) (id : JSString) :
  Forall (λ id, is_Some (canon !! id)) pre →
  canon !! id = None →
  FakeItemsAPI.checkItems this (pre ++ id :: post) = Some (ItemNotFound id).
Proof.
  intros Hpre Hid. induction Hpre as [|y pre Hy _ IH].
  - rewrite app_nil_l, checkItems_cons, bool_decide_eq_false_2; [done|].
    rewrite Hid. by intros [? ?].
  - rewrite <- app_comm_cons, checkItems_cons, bool_decide_eq_true_2; done.
Qed.

Lemma checkItems_all_present (ids : list JSString) :
  Forall (λ id, is_Some (canon !! id)) ids →
  FakeItemsAPI.checkItems this ids = None.
Proof.
  induction 1 as [|y ids Hy _ IH]; [done|].
  by rewrite checkItems_cons, bool_decide_eq_true_2.
Qed.

Lemma calculatedTotal_canonical (ids : list JSString) (acc : option Z) :
  fold_left
    (λ sum itemId,
       let item := find (λ item, strict_eq (IItemModel.id item) itemId)
                        (FakeItemsAPI.data this) in
       sum ≫= λ sum, add sum (or_zero (IItemModel.price <$> item)))
    ids acc
  = fold_left
      (λ sum itemId,
         sum ≫= λ sum, add sum (or_zero (IItemModel.price <$> canon !! itemId)))
      ids acc.
Proof.
  revert acc. induction ids as [|id ids IH]; intros acc; [done|].
  cbn [fold_left]. by rewrite IH, find_canonical.
Qed.

(** Within the bound the [reduce] performs no rounding: it returns the
    exact sum of the canonical prices. *)
Lemma reduce_exact (P : Z) (ids : list JSString) (acc : Z) :
  pricedWithin P (FakeItemsAPI.data this) →
  Forall (λ id, is_Some (canon !! id)) ids →
  0 ≤ acc → acc + P * Z.of_nat (length ids) ≤ 2 ^ 53 →
  ∃ sum,
    expectedTotal canon ids = Some sum
    ∧ 0 ≤ sum ≤ P * Z.of_nat (length ids)
    ∧ fold_left
        (λ sum itemId,
           sum ≫= λ sum,
             add sum (or_zero (IItemModel.price <$> canon !! itemId)))
        ids (Some acc)
      = Some (acc + sum).
Proof.
  intros Hpriced Hall. revert acc.
  induction Hall as [|id ids [item Hid] _ IH]; intros acc Hacc Hbound.
  - exists 0. cbn [length expectedTotal fold_left].
    split; [done|]. split; [lia|]. f_equal. lia.
  - assert (0 ≤ IItemModel.price item ≤ P) as Hprice.
    { unfold pricedWithin in Hpriced. rewrite Forall_forall in Hpriced.
      apply Hpriced. by apply canonical_elem with id. }
    cbn [length] in Hbound.
    destruct (IH (acc + IItemModel.price item)) as (sum & Hsum & Hrange & Hfold);
      [lia | nia |].
    exists (IItemModel.price item + sum).
    cbn [expectedTotal fold_left length]. rewrite Hid, Hsum.
    split; [done|]. split; [nia|].
    cbn [fmap option_fmap option_map mbind option_bind].
    rewrite or_zero_Some, add_within by nia.
    rewrite Hfold. f_equal. lia.
Qed.

Lemma calculatedTotal_expected (P : Z) (ids : list JSString) :
  pricedWithin P (FakeItemsAPI.data this) →
  P * Z.of_nat (length ids) ≤ 2 ^ 53 →
  Forall (λ id, is_Some (canon !! id)) ids →
  ∃ sum, expectedTotal canon ids = Some sum
         ∧ FakeItemsAPI.calculatedTotal this ids = Some sum.
Proof.
  intros Hpriced Hbound Hall.
  destruct (reduce_exact P ids 0 Hpriced Hall) as (sum & Hsum & _ & Hfold);
    [lia | lia |].
  exists sum. split; [done|].
  unfold FakeItemsAPI.calculatedTotal.
  by rewrite calculatedTotal_canonical, Hfold.
Qed.

Lemma postOrder_after_address (orderInfo : IOrderInfo.t) (a : JSString) :
  IOrderInfo.address orderInfo = Some a → a ≠ [] →
  FakeItemsAPI.postOrder this orderInfo
  = match FakeItemsAPI.checkItems this (IOrderInfo.items orderInfo) with
    | Some e => rejected e
    | None =>
      calculatedTotal ←
        FakeItemsAPI.calculatedTotal this (IOrderInfo.items orderInfo);
      if calculatedTotal =? IOrderInfo.total orderInfo
      then confirmed (IOrderInfo.total orderInfo)
      else rejected TotalMismatch
    end.
Proof.
  intros Ha Hne. unfold FakeItemsAPI.postOrder.
  rewrite (proj2 (not_string_false _)) by eauto.
  destruct (FakeItemsAPI.checkItems _ _); [done|].
  destruct (FakeItemsAPI.calculatedTotal _ _) as [sum|]; [|done].
  cbn [mbind option_bind]. by destruct (_ =? _).
Qed.

(** C1. The address check comes first and decides alone: an order whose
    address is absent or empty is rejected with the missing-address
    message, whatever its items and total are and whatever the catalogue
    holds. *)
Theorem postOrder_address_first (orderInfo : IOrderInfo.t) :
  IOrderInfo.address orderInfo = None
  ∨ IOrderInfo.address orderInfo = Some [] →
  FakeItemsAPI.postOrder this orderInfo = rejected AddressMissing.
Proof.
  unfold FakeItemsAPI.postOrder. by intros [-> | ->].
Qed.

(** C2. With a non-empty address, the first ordered id that the
    canonical set lacks is the one the rejection names, whatever the
    total is: every id before it is present, and the ids after it are not
    looked at. *)
Theorem postOrder_first_missing_item (orderInfo : IOrderInfo.t)
    (a : JSString) (pre post : list JSString) (id : JSString) :
  IOrderInfo.address orderInfo = Some a → a ≠ [] →
  IOrderInfo.items orderInfo = pre ++ id :: post →
  Forall (λ id, is_Some (canon !! id)) pre →
  canon !! id = None →
  FakeItemsAPI.postOrder this orderInfo = rejected (ItemNotFound id).
Proof.
  intros Ha Hne Hitems Hpre Hid.
  rewrite (postOrder_after_address _ a), Hitems by done.
  by rewrite checkItems_first_missing.
Qed.

Lemma total_check (orderInfo : IOrderInfo.t) (a : JSString)
    (P : Z) :
  IOrderInfo.address orderInfo = Some a → a ≠ [] →
  Forall (λ id, is_Some (canon !! id)) (IOrderInfo.items orderInfo) →
  pricedWithin P (FakeItemsAPI.data this) →
  P * Z.of_nat (length (IOrderInfo.items orderInfo)) ≤ 2 ^ 53 →
  ∃ expected,
    expectedTotal canon (IOrderInfo.items orderInfo) = Some expected
    ∧ (FakeItemsAPI.postOrder this orderInfo = rejected TotalMismatch
       ↔ expected ≠ IOrderInfo.total orderInfo)
    ∧ (FakeItemsAPI.postOrder this orderInfo
       = confirmed (IOrderInfo.total orderInfo)
       ↔ expected = IOrderInfo.total orderInfo).
Proof.
  intros Ha Hne Hall Hpriced Hbound.
  destruct (calculatedTotal_expected P _ Hpriced Hbound Hall)
    as (expected & Hexpected & Hsum).
  exists expected. split; [done|].
  rewrite (postOrder_after_address _ a), checkItems_all_present by done.
  rewrite Hsum. cbn [mbind option_bind].
  unfold rejected, confirmed.
  destruct (Z.eqb_spec expected (IOrderInfo.total orderInfo));
    split; split; done.
Qed.

(** C3. With a non-empty address and every ordered id in the canonical
    set, the expected total is defined; the order is rejected with the
    total-mismatch message exactly when the expected total differs from
    the request's total, and is confirmed with the order id and the
    request's total exactly when they are equal. The prices are integers
    between 0 and a bound [P] with [P] times the number of ordered items
    at most 2^53, so that the sum is exact in the code's arithmetic (in
    the program [P] is 9 and an array has fewer than 2^32 items). *)
Theorem postOrder_total_check (orderInfo : IOrderInfo.t) (a : JSString)
    (P : Z) :
  IOrderInfo.address orderInfo = Some a → a ≠ [] →
  Forall (λ id, is_Some (canon !! id)) (IOrderInfo.items orderInfo) →
  pricedWithin P (FakeItemsAPI.data this) →
  P * Z.of_nat (length (IOrderInfo.items orderInfo)) ≤ 2 ^ 53 →
  ∃ expected,
    expectedTotal canon (IOrderInfo.items orderInfo) = Some expected
    ∧ (FakeItemsAPI.postOrder this orderInfo = rejected TotalMismatch
       ↔ expected ≠ IOrderInfo.total orderInfo)
    ∧ (FakeItemsAPI.postOrder this orderInfo
       = confirmed (IOrderInfo.total orderInfo)
       ↔ expected = IOrderInfo.total orderInfo).
Proof. apply total_check. Qed.

(** C10. With a non-empty address and no items, the order is confirmed
    exactly when its total is 0, and is otherwise rejected with the
    total-mismatch message. *)
Theorem postOrder_no_items (orderInfo : IOrderInfo.t) (a : JSString) :
  IOrderInfo.address orderInfo = Some a → a ≠ [] →
  IOrderInfo.items orderInfo = [] →
  expectedTotal canon (IOrderInfo.items orderInfo) = Some 0
  ∧ (FakeItemsAPI.postOrder this orderInfo
     = confirmed (IOrderInfo.total orderInfo)
     ↔ IOrderInfo.total orderInfo = 0)
  ∧ (FakeItemsAPI.postOrder this orderInfo = rejected TotalMismatch
     ↔ IOrderInfo.total orderInfo ≠ 0).
Proof.
  intros Ha Hne Hitems.
  rewrite (postOrder_after_address _ a), Hitems by done.
  cbn [FakeItemsAPI.checkItems expectedTotal].
  change (FakeItemsAPI.calculatedTotal this []) with (Some 0).
  cbn [mbind option_bind]. unfold rejected, confirmed.
  split; [done|].
  destruct (Z.eqb_spec 0 (IOrderInfo.total orderInfo)) as [<- | Hneq];
    split; split; done.
Qed.

End OrderValidator.

Lemma canonical_new_present (k : JSString) :
  bool_decide (is_Some (canonical (FakeItemsAPI.data FakeItemsAPI.new) !! k))
  = true →
  is_Some (canonical (FakeItemsAPI.data FakeItemsAPI.new) !! k).
Proof. apply bool_decide_eq_true_1. Qed.

Lemma pricedWithin_new : pricedWithin 9 (FakeItemsAPI.data FakeItemsAPI.new).
Proof. repeat (constructor; [cbn; lia|]). constructor. Qed.

Lemma postOrder_address_first_witness :
  FakeItemsAPI.postOrder FakeItemsAPI.new (order (Some []) 5 [js "99"])
  = rejected AddressMissing.
Proof.
  apply (postOrder_address_first FakeItemsAPI.new). right. reflexivity.
Defined.

Lemma postOrder_first_missing_item_witness :
  FakeItemsAPI.postOrder FakeItemsAPI.new
    (order (Some (js "Lenina 1")) 2 [js "2"; js "99"; js "98"])
  = rejected (ItemNotFound (js "99")).
Proof.
  apply (postOrder_first_missing_item FakeItemsAPI.new _
           (js "Lenina 1") [js "2"] [js "98"] (js "99")).
  - reflexivity.
  - discriminate.
  - reflexivity.
  - repeat constructor. apply canonical_new_present. vm_compute. reflexivity.
  - vm_compute. reflexivity.
Defined.

Lemma postOrder_total_check_witness :
  ∃ expected,
    expectedTotal (canonical (FakeItemsAPI.data FakeItemsAPI.new))
      [js "3"; js "3"] = Some expected
    ∧ (FakeItemsAPI.postOrder FakeItemsAPI.new
         (order (Some (js "Lenina 1")) 6 [js "3"; js "3"])
       = rejected TotalMismatch ↔ expected ≠ 6)
    ∧ (FakeItemsAPI.postOrder FakeItemsAPI.new
         (order (Some (js "Lenina 1")) 6 [js "3"; js "3"])
       = confirmed 6 ↔ expected = 6).
Proof.
  apply (postOrder_total_check FakeItemsAPI.new
           (order (Some (js "Lenina 1")) 6 [js "3"; js "3"]) (js "Lenina 1")
           9).
  - reflexivity.
  - discriminate.
  - repeat constructor; apply canonical_new_present; vm_compute; reflexivity.
  - repeat (constructor; [cbn; lia|]). constructor.
  - cbn. lia.
Defined.

(** In the program itself the bound always holds: the prices of its
    catalogue are at most 9 and an array has fewer than 2^32 elements. *)
Corollary total_check_program (orderInfo : IOrderInfo.t) (a : JSString) :
  IOrderInfo.address orderInfo = Some a → a ≠ [] →
  Forall (λ id, is_Some (canonical (FakeItemsAPI.data FakeItemsAPI.new) !! id))
         (IOrderInfo.items orderInfo) →
  Z.of_nat (length (IOrderInfo.items orderInfo)) < 2 ^ 32 →
  ∃ expected,
    expectedTotal (canonical (FakeItemsAPI.data FakeItemsAPI.new))
      (IOrderInfo.items orderInfo) = Some expected
    ∧ (FakeItemsAPI.postOrder FakeItemsAPI.new orderInfo
       = rejected TotalMismatch
       ↔ expected ≠ IOrderInfo.total orderInfo)
    ∧ (FakeItemsAPI.postOrder FakeItemsAPI.new orderInfo
       = confirmed (IOrderInfo.total orderInfo)
       ↔ expected = IOrderInfo.total orderInfo).
Proof.
  intros Ha Hne Hall Hlength.
  apply (total_check FakeItemsAPI.new orderInfo a 9); try done.
  - apply pricedWithin_new.
  - lia.
Qed.

(** Past the bound the embedding gives no result: with prices 2^53 and 1
    the code's sum is rounded, and the model does not follow it. *)
Example sum_beyond_bound :
  FakeItemsAPI.postOrder
    {| FakeItemsAPI.total := 2;
       FakeItemsAPI.data :=
         [IItemModel.mk (js "a") (js "A") (2 ^ 53) [] [] [];
          IItemModel.mk (js "b") (js "B") 1 [] [] []] |}
    (order (Some (js "Lenina 1")) (2 ^ 53) [js "a"; js "b"])
  = None.
Proof. vm_compute. reflexivity. Qed.

Lemma postOrder_no_items_witness :
  expectedTotal (canonical (FakeItemsAPI.data FakeItemsAPI.new)) [] = Some 0
  ∧ (FakeItemsAPI.postOrder FakeItemsAPI.new
       (order (Some (js "Lenina 1")) 0 [])
     = confirmed 0 ↔ 0 = 0)
  ∧ (FakeItemsAPI.postOrder FakeItemsAPI.new
       (order (Some (js "Lenina 1")) 0 [])
     = rejected TotalMismatch ↔ 0 ≠ 0).
Proof.
  apply (postOrder_no_items FakeItemsAPI.new
           (order (Some (js "Lenina 1")) 0 []) (js "Lenina 1")).
  - reflexivity.
  - discriminate.
  - reflexivity.
Defined.

(** The specification's own cases on the program's catalogue. *)
Example exact_total_accepted :
  FakeItemsAPI.postOrder FakeItemsAPI.new
    (order (Some (js "Lenina 1")) 6 [js "3"; js "3"])
  = confirmed 6.
Proof. vm_compute. reflexivity. Qed.

Example exact_total_rejected :
  FakeItemsAPI.postOrder FakeItemsAPI.new
    (order (Some (js "Lenina 1")) 3 [js "3"; js "3"])
  = rejected TotalMismatch.
Proof. vm_compute. reflexivity. Qed.

Example existence_before_total :
  FakeItemsAPI.postOrder FakeItemsAPI.new
    (order (Some (js "Lenina 1")) 0 [js "99"])
  = rejected (ItemNotFound (js "99")).
Proof. vm_compute. reflexivity. Qed.

Example empty_order_accepted :
  FakeItemsAPI.postOrder FakeItemsAPI.new (order (Some (js "Lenina 1")) 0 [])
  = confirmed 0.
Proof. vm_compute. reflexivity. Qed.

(** * Collections *)

Section Splice.

Context {T : Type}.
Implicit Types (arr : list T) (start : Z).

Lemma splice_in_range arr start :
  0 ≤ start < Z.of_nat (length arr) →
  splice arr start 1
  = take (Z.to_nat start) arr ++ drop (S (Z.to_nat start)) arr.
Proof.
  intros Hrange. unfold splice.
  destruct (Z.ltb_spec start 0); [lia|].
  rewrite Z.min_l, (Z.max_l 1 0), (Z.min_l 1) by lia.
  do 2 f_equal. lia.
Qed.

Lemma splice_beyond arr start :
  Z.of_nat (length arr) ≤ start → splice arr start 1 = arr.
Proof.
  intros Hrange. unfold splice.
  destruct (Z.ltb_spec start 0); [lia|].
  rewrite Z.min_r, (Z.max_l 1 0), (Z.min_r 1) by lia.
  replace (_ + (_ - _)) with (Z.of_nat (length arr)) by lia.
  rewrite Nat2Z.id. apply take_drop.
Qed.

(** A negative start counts from the end of the array. *)
Lemma splice_from_end_of arr start :
  - Z.of_nat (length arr) ≤ start < 0 →
  splice arr start 1
  = splice arr (Z.of_nat (length arr) + start) 1.
Proof.
  intros Hrange. unfold splice.
  destruct (Z.ltb_spec start 0); [|lia].
  destruct (Z.ltb_spec (Z.of_nat (length arr) + start) 0); [lia|].
  by rewrite Z.max_l, (Z.min_l (_ + _)) by lia.
Qed.

Lemma remove_at_length arr (i : nat) :
  (i < length arr)%nat →
  length (take i arr ++ drop (S i) arr) = pred (length arr).
Proof.
  intros Hi. rewrite length_app, length_take, length_drop. lia.
Qed.

Lemma remove_at_before arr (i j : nat) :
  (j < i)%nat → (i < length arr)%nat →
  (take i arr ++ drop (S i) arr) !! j = arr !! j.
Proof.
  intros Hj Hi.
  rewrite lookup_app_l by (rewrite length_take; lia).
  by apply lookup_take_lt.
Qed.

Lemma remove_at_after arr (i j : nat) :
  (i ≤ j)%nat → (i < length arr)%nat →
  (take i arr ++ drop (S i) arr) !! j = arr !! S j.
Proof.
  intros Hj Hi.
  rewrite lookup_app_r by (rewrite length_take; lia).
  rewrite length_take, lookup_drop. f_equal. lia.
Qed.

End Splice.

(** ** The basket *)

Lemma with_items_same (this : BasketList.t) (arr : list BasketItem.t) :
  AbstractList._items this = Some arr →
  {| AbstractList.total := AbstractList.total this;
     AbstractList._items := Some arr |} = this.
Proof. destruct this as [total items]. simpl. by intros ->. Qed.

(** On an assigned array [addItem] appends: the length grows by one and
    the earlier elements keep their places, whatever the item is. *)
Lemma addItem_appends (this : BasketList.t) (arr : list BasketItem.t)
    (item : BasketItem.t) :
  AbstractList._items this = Some arr →
  ∃ this',
    BasketList.addItem this item = (this', Normal tt)
    ∧ AbstractList.items this' = Some (arr ++ [item])
    ∧ AbstractList.total this' = AbstractList.total this.
Proof.
  intros Harr. unfold BasketList.addItem. rewrite Harr. eauto.
Qed.

(** C6. A newly constructed basket has no items sequence: [items] is
    [undefined], and [addItem] on it throws a [TypeError] and appends
    nothing. *)
Theorem new_basket_items_undefined (item : BasketItem.t) :
  AbstractList.items BasketList.new = None
  ∧ BasketList.addItem BasketList.new item = (BasketList.new, Throw TypeError).
Proof. split; reflexivity. Qed.

(** C4, as amended. On an assigned array and for an index that is not
    negative, [delete] returns normally: within the array it removes the
    element at the index, the elements before it keep their places and
    the ones after it move one place down; at or past the end it leaves
    the basket as it was and signals nothing. *)
Theorem delete_nonnegative_index (this : BasketList.t)
    (arr : list BasketItem.t) (itemIndex : Z) :
  AbstractList._items this = Some arr →
  0 ≤ itemIndex →
  ∃ arr',
    BasketList.delete this itemIndex
    = ({| AbstractList.total := AbstractList.total this;
          AbstractList._items := Some arr' |}, Normal tt)
    ∧ (itemIndex < Z.of_nat (length arr) →
       length arr' = pred (length arr)
       ∧ (∀ j, (j < Z.to_nat itemIndex)%nat → arr' !! j = arr !! j)
       ∧ (∀ j, (Z.to_nat itemIndex ≤ j)%nat → arr' !! j = arr !! S j))
    ∧ (Z.of_nat (length arr) ≤ itemIndex →
       arr' = arr ∧ BasketList.delete this itemIndex = (this, Normal tt)).
Proof.
  intros Harr Hpos. exists (splice arr itemIndex 1).
  unfold BasketList.delete. rewrite Harr. split; [done|]. split.
  - intros Hlt. rewrite splice_in_range by lia.
    split; [apply remove_at_length; lia|].
    split; intros j Hj; [apply remove_at_before | apply remove_at_after]; lia.
  - intros Hge. rewrite splice_beyond by done.
    split; [done|]. by rewrite with_items_same.
Qed.

Lemma delete_nonnegative_index_witness :
  ∃ arr',
    BasketList.delete (basketOf [itemA; itemB; itemC]) 1
    = (basketOf arr', Normal tt)
    ∧ (1 < 3 →
       length arr' = 2%nat
       ∧ (∀ j, (j < 1)%nat → arr' !! j = [itemA; itemB; itemC] !! j)
       ∧ (∀ j, (1 ≤ j)%nat → arr' !! j = [itemA; itemB; itemC] !! S j))
    ∧ (3 ≤ 1 →
       arr' = [itemA; itemB; itemC]
       ∧ BasketList.delete (basketOf [itemA; itemB; itemC]) 1
         = (basketOf [itemA; itemB; itemC], Normal tt)).
Proof.
  apply (delete_nonnegative_index (basketOf [itemA; itemB; itemC])
           [itemA; itemB; itemC] 1).
  - reflexivity.
  - lia.
Defined.

(** The specification's two cases of [delete]. *)
Example delete_shift :
  BasketList.delete (basketOf [itemA; itemB; itemC]) 1
  = (basketOf [itemA; itemC], Normal tt).
Proof. reflexivity. Qed.

(** C4, the claim as stated fails: index 3 is outside [0, 3), and
    [delete(3)] on a basket of three items completes normally instead of
    failing. *)
Lemma delete_out_of_range_counterexample :
  ¬ (0 ≤ 3 < Z.of_nat (length [itemA; itemB; itemC]))
  ∧ BasketList.delete (basketOf [itemA; itemB; itemC]) 3
    = (basketOf [itemA; itemB; itemC], Normal tt)
  ∧ failed (snd (BasketList.delete (basketOf [itemA; itemB; itemC]) 3))
    = false.
Proof. split; [simpl; lia|]. split; reflexivity. Qed.

(** A negative index is outside the range too; [delete] then removes an
    element counted from the end, or the first one. *)
Example delete_negative_index :
  BasketList.delete (basketOf [itemA; itemB; itemC]) (-1)
  = (basketOf [itemA; itemB], Normal tt)
  ∧ BasketList.delete (basketOf [itemA; itemB; itemC]) (-5)
    = (basketOf [itemB; itemC], Normal tt).
Proof. split; reflexivity. Qed.

(** On a newly constructed basket there is no array to splice. *)
Example delete_on_new_basket :
  BasketList.delete BasketList.new 0 = (BasketList.new, Throw TypeError).
Proof. reflexivity. Qed.

(** ** The catalogue *)

(** C5. [load] on any catalogue object: when the collaborator's promise
    resolves, [load] resolves, [total] is the reported total and [items]
    holds one constructed item per raw item, in the same order, in place
    of what was there; when the promise is rejected, [load] is rejected
    with the same reason and the object is the one before the call. *)
Theorem load_replaces_or_keeps (this : CatalogList.t) :
  match loadItemsList (LoadList._api this) with
  | Resolved data =>
    ∃ this',
      CatalogList.load this = (this', Resolved tt)
      ∧ LoadList.total this' = Some (IList.total data)
      ∧ LoadList.items this'
        = Some (LoadList._ItemConstructor this <$> IList.items data)
      ∧ LoadList._ItemConstructor this' = LoadList._ItemConstructor this
      ∧ LoadList._api this' = LoadList._api this
  | Rejected reason =>
    CatalogList.load this = (this, Rejected reason)
  end.
Proof.
  unfold CatalogList.load.
  destruct (loadItemsList (LoadList._api this)) as [data|reason]; [|done].
  eexists. by repeat split.
Qed.

Example catalogLoadList_loaded :
  LoadList.total catalogLoadList = Some 10
  ∧ (length <$> LoadList.items catalogLoadList) = Some 10%nat
  ∧ LoadList.items catalogLoadList
    = Some (CatalogItem.new <$> FakeItemsAPI.data FakeItemsAPI.new).
Proof. repeat split. Qed.

Example load_failure_keeps_state :
  let this := {| LoadList.base := LoadList.base catalogLoadList;
                 LoadList._ItemConstructor := CatalogItem.new;
                 LoadList._api := failingAPI |} in
  CatalogList.load this = (this, Rejected (js "offline")).
Proof. reflexivity. Qed.

(** C9, as amended. [itemClick] checks nothing: for every catalogue
    object and every index it writes one line to the console and returns
    normally, and the object, so its total and its items, is the one
    before the call. The text of the line is the fixed prefix followed by
    the index as [ToString] gives it, that is, by its decimal digits for
    an index of magnitude at most 2^53. *)
Theorem itemClick_no_validation_no_mutation (this : CatalogList.t)
    (itemIndex : Z) :
  CatalogList.itemClick this itemIndex
  = (this,
     [(λ index, js "Открытие карточки с товаром " ++ index)
        <$> ToString itemIndex],
     Normal tt)
  ∧ failed (snd (CatalogList.itemClick this itemIndex)) = false
  ∧ LoadList.total (fst (fst (CatalogList.itemClick this itemIndex)))
    = LoadList.total this
  ∧ LoadList.items (fst (fst (CatalogList.itemClick this itemIndex)))
    = LoadList.items this.
Proof. by repeat split. Qed.

(** C9, the claim as stated fails: the loaded catalogue has ten items,
    index 10 is out of range, and [itemClick(10)] goes on to write its
    line and returns normally. *)
Lemma itemClick_out_of_range_counterexample :
  ∃ items,
    LoadList.items catalogLoadList = Some items
    ∧ ¬ (0 ≤ 10 < Z.of_nat (length items))
    ∧ CatalogList.itemClick catalogLoadList 10
      = (catalogLoadList,
         [Some (js "Открытие карточки с товаром 10")], Normal tt)
    ∧ failed (snd (CatalogList.itemClick catalogLoadList 10)) = false.
Proof.
  eexists. split; [reflexivity|]. split; [simpl; lia|]. split; reflexivity.
Qed.

(** * Form fields *)

Lemma trimStart_nil (s : JSString) :
  trimStart s = [] ↔ forallb isWhiteSpace s = true.
Proof.
  induction s as [|c r IH]; [done|].
  cbn [trimStart forallb]. destruct (isWhiteSpace c); [done|].
  split; discriminate.
Qed.

Lemma trimStart_keeps_black (s : JSString) :
  forallb isWhiteSpace (trimStart s) = forallb isWhiteSpace s.
Proof.
  induction s as [|c r IH]; [done|].
  cbn [trimStart]. destruct (isWhiteSpace c) eqn:Hc; [|done].
  cbn [forallb]. by rewrite Hc.
Qed.

Lemma forallb_rev (f : N → bool) (s : JSString) :
  forallb f (rev s) = forallb f s.
Proof.
  apply eq_true_iff_eq. rewrite !forallb_forall.
  split; intros H c Hc; apply H; by apply in_rev in Hc || apply in_rev.
Qed.

Lemma trimEnd_nil (s : JSString) :
  trimEnd s = [] ↔ forallb isWhiteSpace s = true.
Proof.
  unfold trimEnd. rewrite <- (forallb_rev _ s), <- trimStart_nil.
  split; [|by intros ->].
  intros H. apply (f_equal (@rev N)) in H. by rewrite rev_involutive in H.
Qed.

Lemma trim_nil (s : JSString) :
  trim s = [] ↔ forallb isWhiteSpace s = true.
Proof. unfold trim. by rewrite trimEnd_nil, trimStart_keeps_black. Qed.

Lemma forallb_false_elem (f : N → bool) (s : JSString) :
  forallb f s = false → ∃ c, c ∈ s ∧ f c = false.
Proof.
  induction s as [|c r IH]; [done|].
  cbn [forallb]. destruct (f c) eqn:Hc.
  - intros (d & Hd & Hf)%IH. exists d. split; [by right|done].
  - intros _. exists c. split; [by left|done].
Qed.

(** A text field is valid exactly when trimming leaves something of its
    value, that is, when some code unit of the value is not white
    space. *)
Lemma editText_isValid (fieldName hint value : JSString) :
  (isValid (editText fieldName hint value) = true ↔ trim value ≠ [])
  ∧ (trim value ≠ [] ↔ ∃ c, c ∈ value ∧ isWhiteSpace c = false).
Proof.
  split.
  - cbn [isValid]. rewrite Nat.ltb_lt.
    destruct (trim value); cbn [length]; split; (lia || done).
  - rewrite trim_nil. split.
    + intros H. destruct (forallb isWhiteSpace value) eqn:Hall; [done|].
      by apply forallb_false_elem.
    + intros (c & Hc & Hws) Hall.
      rewrite forallb_forall in Hall.
      apply list_elem_of_In in Hc. rewrite (Hall c Hc) in Hws. done.
Qed.

(** A choice field whose [selected] is a string is valid exactly when the
    string is not empty. *)
Lemma radioButton_isValid_string (fieldName : JSString)
    (choices : list JSString) (selected : JSString) :
  isValid (radioButton fieldName choices (Some selected)) = true
  ↔ selected ≠ [].
Proof.
  cbn [isValid]. rewrite negb_true_iff, bool_decide_eq_false.
  split; intros H; [intros -> | intros [= ->]]; done.
Qed.

(** C7. A choice field whose [selected] is not set passes [isValid]: the
    method compares [selected] with the empty string only. *)
Theorem radioButton_unset_isValid (fieldName : JSString)
    (choices : list JSString) :
  isValid (radioButton fieldName choices None) = true.
Proof. reflexivity. Qed.

(** The specification's cases of field validity. *)
Example editText_blank_invalid :
  isValid (editText (js "Email") (js "Введите Email") (js "  ")) = false.
Proof. reflexivity. Qed.

Example editText_x_valid :
  isValid (editText (js "Email") (js "Введите Email") (js "x")) = true.
Proof. reflexivity. Qed.

Example radioButton_created_invalid :
  isValid (createRadioButtonField (js "Способ оплаты")
             [js "Онлайн"; js "При получении"]) = false.
Proof. reflexivity. Qed.

(** ** Collecting the values of a form *)

Lemma collect_assign (fieldsData : gmap JSString (option JSString))
    (field : IField) :
  OrderPopup.collect fieldsData field
  = OrderPopup.assign fieldsData (fieldName field) (fieldValue field).
Proof. by destruct field. Qed.

Lemma assign_lookup (fieldsData : gmap JSString (option JSString))
    (key name : JSString) (value : option JSString) :
  OrderPopup.assign fieldsData key value !! name
  = if decide (key = name ∧ name ≠ js "__proto__") then Some value
    else fieldsData !! name.
Proof.
  unfold OrderPopup.assign, strict_eq. case_bool_decide as Hproto.
  - rewrite decide_False; [done|]. intros [<- ?]. done.
  - case_decide as Hkey.
    + destruct Hkey as [-> _]. apply lookup_insert_eq.
    + apply lookup_insert_ne. intros ->. apply Hkey. done.
Qed.

(** After the [reduce], a name other than [__proto__] holds the value of
    the last field that carries it, and what the accumulator held when no
    field does; the name [__proto__] holds what the accumulator held. *)
Lemma fold_collect_lookup (fields : list IField)
    (fieldsData : gmap JSString (option JSString)) (name : JSString) :
  fold_left OrderPopup.collect fields fieldsData !! name
  = if decide (name = js "__proto__") then fieldsData !! name
    else match last (filter (λ field, fieldName field = name) fields) with
         | Some field => Some (fieldValue field)
         | None => fieldsData !! name
         end.
Proof.
  revert fieldsData.
  induction fields as [|field fields IH]; intros fieldsData.
  { cbn [fold_left]. rewrite filter_nil. by case_decide. }
  cbn [fold_left]. rewrite IH, collect_assign, assign_lookup, filter_cons.
  destruct (decide (name = js "__proto__")) as [Hproto|Hproto].
  { rewrite decide_False; [done|]. by intros [_ ?]. }
  destruct (decide (fieldName field = name)) as [Hname|Hname].
  - rewrite last_cons, decide_True by done.
    by destruct (last (filter _ fields)).
  - rewrite decide_False; [done|]. by intros [? _].
Qed.

Lemma filter_fresh_name (fields : list IField) (name : JSString) :
  name ∉ fieldName <$> fields →
  filter (λ other, fieldName other = name) fields = [].
Proof.
  intros Hnot.
  destruct (filter _ fields) as [|other rest] eqn:Hfilter; [done|].
  assert (other ∈ filter (λ other, fieldName other = name) fields) as Hin
    by (rewrite Hfilter; left).
  apply list_elem_of_filter in Hin as [<- Hin].
  destruct Hnot. by apply list_elem_of_fmap_2.
Qed.

Lemma last_of_name (fields : list IField) (field : IField) :
  NoDup (fieldName <$> fields) →
  field ∈ fields →
  last (filter (λ other, fieldName other = fieldName field) fields)
  = Some field.
Proof.
  intros Hnodup Hin.
  induction fields as [|other fields IH]; [by apply elem_of_nil in Hin|].
  rewrite fmap_cons in Hnodup. apply NoDup_cons in Hnodup as [Hnot Hnodup].
  rewrite filter_cons.
  apply elem_of_cons in Hin as [-> | Hin].
  - rewrite decide_True by done. by rewrite filter_fresh_name.
  - rewrite decide_False; [by apply IH|].
    intros Heq. apply Hnot. rewrite Heq. by apply list_elem_of_fmap_2.
Qed.



(** With pairwise distinct names every field of the form whose name is
    not [__proto__] is collected. *)
Corollary getFormData_every_field (this : OrderPopup.t)
    (fieldsData : gmap JSString (option JSString)) (field : IField) :
  NoDup (fieldName <$> OrderPopup.fields this) →
  OrderPopup.getFormData this = inr fieldsData →
  field ∈ OrderPopup.fields this →
  fieldName field ≠ js "__proto__" →
  fieldsData !! fieldName field = Some (fieldValue field).
Proof.
  intros Hnodup Hdata Hin Hproto.
  unfold OrderPopup.getFormData, logical_and in Hdata.
  cbn [ToBoolean] in Hdata. injection Hdata as <-.
  by rewrite fold_collect_lookup, decide_False, last_of_name.
Qed.

(** A field named [__proto__] is never collected: the collected object
    has no property of that name. *)
Lemma getFormData_proto_dropped (this : OrderPopup.t)
    (fieldsData : gmap JSString (option JSString)) :
  OrderPopup.getFormData this = inr fieldsData →
  fieldsData !! js "__proto__" = None.
Proof.
  unfold OrderPopup.getFormData, logical_and. cbn [ToBoolean].
  intros [= <-]. by rewrite fold_collect_lookup, decide_True.
Qed.

Example proto_field_not_collected :
  OrderPopup.getFormData
    (OrderPopup.mk (js "Далее")
       [editText (js "__proto__") (js "Введите адрес") (js "x");
        editText (js "Email") (js "Введите Email") (js "a@b.c")])
  = inr (<[js "Email" := Some (js "a@b.c")]> ∅).
Proof. vm_compute. reflexivity. Qed.

(** The first form is invalid, and its values are collected all the
    same. *)
Example orderPopup1_invalid_collected :
  OrderPopup.isValid orderPopup1 = false
  ∧ OrderPopup.getFormData orderPopup1
    = inr (<[js "Адрес доставки" := Some []]>
             (<[js "Способ оплаты" := Some []]> ∅)).
Proof. split; [reflexivity|]. vm_compute. reflexivity. Qed.

(** * Further properties of the order validator *)

Section OrderOutcomes.

Variable this : FakeItemsAPI.t.

Local Abbreviation canon := (canonical (FakeItemsAPI.data this)).

Lemma checkItems_rejection (ids : list JSString) (e : ErrorResponse.t) :
  FakeItemsAPI.checkItems this ids = Some e →
  ∃ pre id post,
    ids = pre ++ id :: post
    ∧ Forall (λ id, is_Some (canon !! id)) pre
    ∧ canon !! id = None
    ∧ e = ItemNotFound id.
Proof.
  induction ids as [|id ids IH]; [done|].
  rewrite checkItems_cons. case_bool_decide as Hid.
  - intros (pre & id' & post & -> & Hpre & Hid' & ->)%IH.
    exists (id :: pre), id', post. repeat split; try done.
    by constructor.
  - intros [= <-]. exists [], id, ids. repeat split; try done.
    by apply eq_None_not_Some.
Qed.

Lemma checkItems_passed (ids : list JSString) :
  FakeItemsAPI.checkItems this ids = None →
  Forall (λ id, is_Some (canon !! id)) ids.
Proof.
  induction ids as [|id ids IH]; [done|].
  rewrite checkItems_cons. case_bool_decide as Hid; [|done].
  intros Hrest. constructor; auto.
Qed.

Lemma expectedTotal_present (ids : list JSString) (expected : Z) :
  expectedTotal canon ids = Some expected →
  Forall (λ id, is_Some (canon !! id)) ids.
Proof.
  revert expected. induction ids as [|id ids IH]; intros expected; [done|].
  cbn [expectedTotal].
  destruct (canon !! id) as [item|] eqn:Hid; [|done].
  destruct (expectedTotal canon ids) as [sum|]; [|done].
  intros _. constructor; [by rewrite Hid | by eapply IH].
Qed.

Lemma postOrder_cases (P : Z) (orderInfo : IOrderInfo.t) :
  pricedWithin P (FakeItemsAPI.data this) →
  P * Z.of_nat (length (IOrderInfo.items orderInfo)) ≤ 2 ^ 53 →
  (not_string (IOrderInfo.address orderInfo) = true
   ∧ FakeItemsAPI.postOrder this orderInfo = rejected AddressMissing)
  ∨ (not_string (IOrderInfo.address orderInfo) = false
     ∧ ∃ pre id post,
         IOrderInfo.items orderInfo = pre ++ id :: post
         ∧ Forall (λ id, is_Some (canon !! id)) pre
         ∧ canon !! id = None
         ∧ FakeItemsAPI.postOrder this orderInfo
           = rejected (ItemNotFound id))
  ∨ (not_string (IOrderInfo.address orderInfo) = false
     ∧ ∃ expected,
         expectedTotal canon (IOrderInfo.items orderInfo) = Some expected
         ∧ expected ≠ IOrderInfo.total orderInfo
         ∧ FakeItemsAPI.postOrder this orderInfo
           = rejected TotalMismatch)
  ∨ (not_string (IOrderInfo.address orderInfo) = false
     ∧ expectedTotal canon (IOrderInfo.items orderInfo)
       = Some (IOrderInfo.total orderInfo)
     ∧ FakeItemsAPI.postOrder this orderInfo
       = confirmed (IOrderInfo.total orderInfo)).
Proof.
  intros Hpriced Hbound.
  destruct (not_string (IOrderInfo.address orderInfo)) eqn:Haddress.
  { left. split; [done|]. unfold FakeItemsAPI.postOrder. by rewrite Haddress. }
  right. pose proof Haddress as (a & Ha & Hne)%not_string_false.
  rewrite (postOrder_after_address _ _ a) by done.
  destruct (FakeItemsAPI.checkItems this (IOrderInfo.items orderInfo))
    as [e|] eqn:Hcheck.
  { left. split; [done|].
    apply checkItems_rejection in Hcheck
      as (pre & id & post & Hitems & Hpre & Hid & ->).
    by exists pre, id, post. }
  right. apply checkItems_passed in Hcheck as Hall.
  destruct (calculatedTotal_expected _ P _ Hpriced Hbound Hall)
    as (expected & Hexpected & ->).
  cbn [mbind option_bind]. rewrite Hexpected.
  destruct (Z.eqb_spec expected (IOrderInfo.total orderInfo)) as [Heq|Hneq].
  - right. split; [done|]. split; [by rewrite Heq|done].
  - left. split; [done|]. eauto.
Qed.

Lemma confirmed_iff_expected (P : Z) (orderInfo : IOrderInfo.t)
    (response : OrderPostResponse.t) :
  pricedWithin P (FakeItemsAPI.data this) →
  P * Z.of_nat (length (IOrderInfo.items orderInfo)) ≤ 2 ^ 53 →
  FakeItemsAPI.postOrder this orderInfo = Some (Resolved (inl response))
  ↔ response = Confirmation (IOrderInfo.total orderInfo)
    ∧ not_string (IOrderInfo.address orderInfo) = false
    ∧ expectedTotal canon (IOrderInfo.items orderInfo)
      = Some (IOrderInfo.total orderInfo).
Proof.
  intros Hpriced Hbound. unfold rejected, confirmed in *.
  destruct (postOrder_cases P orderInfo Hpriced Hbound)
    as [[Haddress ->] | [(Haddress & pre & id & post & Hitems & _ & Hid & ->)
       | [(Haddress & expected & Hexp & Hneq & ->) | (Haddress & Hexp & ->)]]];
    unfold rejected, confirmed.
  - split; [done|]. intros (_ & H & _). congruence.
  - split; [done|]. intros (_ & _ & Hexp).
    apply expectedTotal_present in Hexp. rewrite Hitems in Hexp.
    apply Forall_app in Hexp as [_ [Hpresent _]%Forall_cons].
    rewrite Hid in Hpresent. by destruct Hpresent.
  - split; [done|]. intros (_ & _ & Hexp'). congruence.
  - split; [by intros [= <-] | by intros (-> & _)].
Qed.

(** X1. With prices between 0 and [P] and [P] times the number of
    ordered items at most 2^53, [postOrder] resolves in exactly one of
    four ways, each with its cause: no usable address; a first ordered id
    that the catalogue lacks; every id known but a total other than the
    sum of their prices; or every id known and the total equal to that
    sum. *)
Theorem postOrder_outcome (P : Z) (orderInfo : IOrderInfo.t) :
  pricedWithin P (FakeItemsAPI.data this) →
  P * Z.of_nat (length (IOrderInfo.items orderInfo)) ≤ 2 ^ 53 →
  (not_string (IOrderInfo.address orderInfo) = true
   ∧ FakeItemsAPI.postOrder this orderInfo = rejected AddressMissing)
  ∨ (not_string (IOrderInfo.address orderInfo) = false
     ∧ ∃ pre id post,
         IOrderInfo.items orderInfo = pre ++ id :: post
         ∧ Forall (λ id, is_Some (canon !! id)) pre
         ∧ canon !! id = None
         ∧ FakeItemsAPI.postOrder this orderInfo
           = rejected (ItemNotFound id))
  ∨ (not_string (IOrderInfo.address orderInfo) = false
     ∧ ∃ expected,
         expectedTotal canon (IOrderInfo.items orderInfo) = Some expected
         ∧ expected ≠ IOrderInfo.total orderInfo
         ∧ FakeItemsAPI.postOrder this orderInfo
           = rejected TotalMismatch)
  ∨ (not_string (IOrderInfo.address orderInfo) = false
     ∧ expectedTotal canon (IOrderInfo.items orderInfo)
       = Some (IOrderInfo.total orderInfo)
     ∧ FakeItemsAPI.postOrder this orderInfo
       = confirmed (IOrderInfo.total orderInfo)).
Proof. apply postOrder_cases. Qed.

(** X2. With prices between 0 and [P] and [P] times the number of
    ordered items at most 2^53, an order is confirmed exactly when its
    address is a non-empty string and its total is the sum of the
    catalogue prices of its items, all of which the catalogue knows; the
    confirmation then carries the fixed order id and the request's
    total. *)
Theorem postOrder_confirmed_iff (P : Z) (orderInfo : IOrderInfo.t)
    (response : OrderPostResponse.t) :
  pricedWithin P (FakeItemsAPI.data this) →
  P * Z.of_nat (length (IOrderInfo.items orderInfo)) ≤ 2 ^ 53 →
  FakeItemsAPI.postOrder this orderInfo = Some (Resolved (inl response))
  ↔ response = Confirmation (IOrderInfo.total orderInfo)
    ∧ not_string (IOrderInfo.address orderInfo) = false
    ∧ expectedTotal canon (IOrderInfo.items orderInfo)
      = Some (IOrderInfo.total orderInfo).
Proof. apply confirmed_iff_expected. Qed.

End OrderOutcomes.

Lemma postOrder_outcome_witness :
  (not_string (Some (js "Lenina 1")) = true
   ∧ FakeItemsAPI.postOrder FakeItemsAPI.new
       (order (Some (js "Lenina 1")) 3 [js "3"; js "3"])
     = rejected AddressMissing)
  ∨ (not_string (Some (js "Lenina 1")) = false
     ∧ ∃ pre id post,
         [js "3"; js "3"] = pre ++ id :: post
         ∧ Forall (λ id, is_Some (canonical (FakeItemsAPI.data FakeItemsAPI.new)
                                    !! id)) pre
         ∧ canonical (FakeItemsAPI.data FakeItemsAPI.new) !! id = None
         ∧ FakeItemsAPI.postOrder FakeItemsAPI.new
             (order (Some (js "Lenina 1")) 3 [js "3"; js "3"])
           = rejected (ItemNotFound id))
  ∨ (not_string (Some (js "Lenina 1")) = false
     ∧ ∃ expected,
         expectedTotal (canonical (FakeItemsAPI.data FakeItemsAPI.new))
           [js "3"; js "3"] = Some expected
         ∧ expected ≠ 3
         ∧ FakeItemsAPI.postOrder FakeItemsAPI.new
             (order (Some (js "Lenina 1")) 3 [js "3"; js "3"])
           = rejected TotalMismatch)
  ∨ (not_string (Some (js "Lenina 1")) = false
     ∧ expectedTotal (canonical (FakeItemsAPI.data FakeItemsAPI.new))
         [js "3"; js "3"] = Some 3
     ∧ FakeItemsAPI.postOrder FakeItemsAPI.new
         (order (Some (js "Lenina 1")) 3 [js "3"; js "3"])
       = confirmed 3).
Proof.
  apply (postOrder_outcome FakeItemsAPI.new 9
           (order (Some (js "Lenina 1")) 3 [js "3"; js "3"])).
  - repeat (constructor; [cbn; lia|]). constructor.
  - cbn. lia.
Defined.

Lemma postOrder_confirmed_iff_witness :
  FakeItemsAPI.postOrder FakeItemsAPI.new
    (order (Some (js "Lenina 1")) 7 [js "2"; js "5"])
  = Some (Resolved (inl (Confirmation 7)))
  ↔ Confirmation 7 = Confirmation 7
    ∧ not_string (Some (js "Lenina 1")) = false
    ∧ expectedTotal (canonical (FakeItemsAPI.data FakeItemsAPI.new))
        [js "2"; js "5"] = Some 7.
Proof.
  apply (postOrder_confirmed_iff FakeItemsAPI.new 9
           (order (Some (js "Lenina 1")) 7 [js "2"; js "5"])
           (Confirmation 7)).
  - repeat (constructor; [cbn; lia|]). constructor.
  - cbn. lia.
Defined.

(** X3. A client can tell the rejections apart by their text alone: the
    three messages differ from one another whatever id the middle one
    names, and that message determines the id. *)
Theorem rejections_distinguishable (id id' : JSString) :
  AddressMissing ≠ TotalMismatch
  ∧ ItemNotFound id ≠ AddressMissing
  ∧ ItemNotFound id ≠ TotalMismatch
  ∧ (ItemNotFound id = ItemNotFound id' ↔ id = id').
Proof.
  split; [by vm_compute|].
  split; [intros [= H]; vm_compute in H; discriminate H|].
  split; [intros [= H]; vm_compute in H; discriminate H|].
  split; [|by intros ->].
  intros [= H]. by apply app_inv_tail in H.
Qed.

Lemma expectedTotal_Permutation (canon : gmap JSString IItemModel.t)
    (ids ids' : list JSString) :
  ids ≡ₚ ids' → expectedTotal canon ids = expectedTotal canon ids'.
Proof.
  induction 1 as [|id ids ids' _ IH|id id' ids|ids ids' ids'' _ IH _ IH'].
  - done.
  - cbn [expectedTotal]. by rewrite IH.
  - cbn [expectedTotal].
    destruct (canon !! id), (canon !! id'), (expectedTotal canon ids);
      try done.
    f_equal. lia.
  - congruence.
Qed.

(** X4. With prices between 0 and [P] and [P] times the number of
    ordered items at most 2^53, whether an order is confirmed does not
    depend on the order in which its items are listed: two requests with
    the same address and total whose item lists are permutations of one
    another are confirmed or not together. *)
Theorem postOrder_confirmed_Permutation (this : FakeItemsAPI.t) (P : Z)
    (orderInfo orderInfo' : IOrderInfo.t) :
  pricedWithin P (FakeItemsAPI.data this) →
  P * Z.of_nat (length (IOrderInfo.items orderInfo)) ≤ 2 ^ 53 →
  IOrderInfo.address orderInfo = IOrderInfo.address orderInfo' →
  IOrderInfo.total orderInfo = IOrderInfo.total orderInfo' →
  IOrderInfo.items orderInfo ≡ₚ IOrderInfo.items orderInfo' →
  FakeItemsAPI.postOrder this orderInfo
  = confirmed (IOrderInfo.total orderInfo)
  ↔ FakeItemsAPI.postOrder this orderInfo'
    = confirmed (IOrderInfo.total orderInfo').
Proof.
  intros Hpriced Hbound Haddress Htotal Hitems. unfold confirmed.
  rewrite (confirmed_iff_expected this P orderInfo) by done.
  assert (P * Z.of_nat (length (IOrderInfo.items orderInfo')) ≤ 2 ^ 53)
    as Hbound' by (by rewrite <- (Permutation_length Hitems)).
  rewrite (confirmed_iff_expected this P orderInfo') by done.
  by rewrite Haddress, Htotal, (expectedTotal_Permutation _ _ _ Hitems).
Qed.

Lemma postOrder_confirmed_Permutation_witness :
  FakeItemsAPI.postOrder FakeItemsAPI.new
    (order (Some (js "Lenina 1")) 7 [js "2"; js "5"])
  = confirmed 7
  ↔ FakeItemsAPI.postOrder FakeItemsAPI.new
      (order (Some (js "Lenina 1")) 7 [js "5"; js "2"])
    = confirmed 7.
Proof.
  apply (postOrder_confirmed_Permutation FakeItemsAPI.new 9
           (order (Some (js "Lenina 1")) 7 [js "2"; js "5"])
           (order (Some (js "Lenina 1")) 7 [js "5"; js "2"])).
  - repeat (constructor; [cbn; lia|]). constructor.
  - cbn. lia.
  - reflexivity.
  - reflexivity.
  - apply perm_swap.
Defined.

Lemma postOrder_canonical (this that : FakeItemsAPI.t)
    (orderInfo : IOrderInfo.t) :
  canonical (FakeItemsAPI.data this) = canonical (FakeItemsAPI.data that) →
  FakeItemsAPI.postOrder this orderInfo
  = FakeItemsAPI.postOrder that orderInfo.
Proof.
  intros Hcanon.
  assert (∀ ids, FakeItemsAPI.checkItems this ids
                 = FakeItemsAPI.checkItems that ids) as Hcheck.
  { induction ids as [|id ids IH]; [done|].
    by rewrite !checkItems_cons, Hcanon, IH. }
  assert (∀ ids, FakeItemsAPI.calculatedTotal this ids
                 = FakeItemsAPI.calculatedTotal that ids) as Hsum.
  { intros ids. unfold FakeItemsAPI.calculatedTotal.
    by rewrite !calculatedTotal_canonical, Hcanon. }
  unfold FakeItemsAPI.postOrder. by rewrite Hcheck, Hsum.
Qed.

Lemma find_append {A} (f : A → bool) (l k : list A) :
  find f (l ++ k) = match find f l with Some x => Some x | None => find f k end.
Proof.
  induction l as [|x l IH]; [done|].
  cbn [app find]. by destruct (f x).
Qed.

Lemma canonical_present (data : list IItemModel.t) (id : JSString) :
  is_Some (canonical data !! id) ↔ id ∈ IItemModel.id <$> data.
Proof.
  rewrite <- not_eq_None_Some. unfold canonical.
  rewrite <- not_elem_of_list_to_map, <- list_fmap_compose.
  split; [apply dec_stable | by intros ? ?].
Qed.

(** X5. Of two catalogue records with one id only the earlier one
    counts: a record added at the end of the catalogue under an id that
    is already there changes the outcome of no order, and neither does
    the [total] field of the collaborator. *)
Theorem postOrder_ignores_shadowed_record (this : FakeItemsAPI.t)
    (total : Z) (record : IItemModel.t) (orderInfo : IOrderInfo.t) :
  IItemModel.id record ∈ IItemModel.id <$> FakeItemsAPI.data this →
  FakeItemsAPI.postOrder
    {| FakeItemsAPI.total := total;
       FakeItemsAPI.data := FakeItemsAPI.data this ++ [record] |} orderInfo
  = FakeItemsAPI.postOrder this orderInfo.
Proof.
  intros Hin. apply postOrder_canonical. cbn [FakeItemsAPI.data].
  apply map_eq. intros id. rewrite <- !find_canonical, find_append.
  destruct (find _ (FakeItemsAPI.data this)) eqn:Hfind; [done|].
  cbn [find]. unfold strict_eq. case_bool_decide as Hid; [|done].
  rewrite find_canonical in Hfind. apply eq_None_not_Some in Hfind.
  destruct Hfind. apply canonical_present. by rewrite <- Hid.
Qed.

Lemma postOrder_ignores_shadowed_record_witness :
  FakeItemsAPI.postOrder
    {| FakeItemsAPI.total := 11;
       FakeItemsAPI.data :=
         FakeItemsAPI.data FakeItemsAPI.new
         ++ [IItemModel.mk (js "3") (js "Товар") 100 [] [] []] |}
    (order (Some (js "Lenina 1")) 3 [js "3"])
  = FakeItemsAPI.postOrder FakeItemsAPI.new
      (order (Some (js "Lenina 1")) 3 [js "3"]).
Proof.
  apply (postOrder_ignores_shadowed_record FakeItemsAPI.new 11
           (IItemModel.mk (js "3") (js "Товар") 100 [] [] [])).
  apply list_elem_of_In. vm_compute. do 3 right. left. reflexivity.
Defined.

(** * Further properties of product lookup *)

Lemma loadProduct_canonical (this : FakeItemsAPI.t) (id : JSString) :
  FakeItemsAPI.loadProduct this id
  = Resolved match canonical (FakeItemsAPI.data this) !! id with
             | Some item => inl item
             | None => inr {| ErrorResponse.error := js "NotFound" |}
             end.
Proof. unfold FakeItemsAPI.loadProduct. by rewrite find_canonical. Qed.

Lemma find_first {A} (f : A → bool) (l : list A) :
  match find f l with
  | Some x =>
    ∃ pre post, l = pre ++ x :: post
                ∧ Forall (λ y, f y = false) pre ∧ f x = true
  | None => Forall (λ y, f y = false) l
  end.
Proof.
  induction l as [|y l IH]; [by constructor|].
  cbn [find]. destruct (f y) eqn:Hy.
  - exists [], l. split; [done|]. split; [by constructor|done].
  - destruct (find f l) as [x|].
    + destruct IH as (pre & post & -> & Hpre & Hx).
      exists (y :: pre), post. repeat split; try done. by constructor.
    + by constructor.
Qed.

(** X6. [loadProduct] always resolves: with the first record of the
    catalogue that carries the requested id, every record before it
    carrying another id; or with the [NotFound] error when no record
    carries it. *)
Theorem loadProduct_outcome (this : FakeItemsAPI.t) (id : JSString) :
  (∃ pre item post,
     FakeItemsAPI.data this = pre ++ item :: post
     ∧ Forall (λ other, IItemModel.id other ≠ id) pre
     ∧ IItemModel.id item = id
     ∧ FakeItemsAPI.loadProduct this id = Resolved (inl item))
  ∨ (Forall (λ other, IItemModel.id other ≠ id) (FakeItemsAPI.data this)
     ∧ FakeItemsAPI.loadProduct this id
       = Resolved (inr {| ErrorResponse.error := js "NotFound" |})).
Proof.
  unfold FakeItemsAPI.loadProduct.
  pose proof (find_first (λ item, strict_eq (IItemModel.id item) id)
                (FakeItemsAPI.data this)) as Hfind.
  destruct (find _ (FakeItemsAPI.data this)) as [item|].
  - left. destruct Hfind as (pre & post & Hdata & Hpre & Hitem).
    exists pre, item, post. repeat split; try done.
    + eapply Forall_impl; [exact Hpre|]. intros other.
      unfold strict_eq. by intros ?%bool_decide_eq_false.
    + by apply bool_decide_eq_true in Hitem.
  - right. split; [|done].
    eapply Forall_impl; [exact Hfind|]. intros other.
    unfold strict_eq. by intros ?%bool_decide_eq_false.
Qed.

Lemma canonical_NoDup (data : list IItemModel.t) (item : IItemModel.t) :
  NoDup (IItemModel.id <$> data) → item ∈ data →
  canonical data !! IItemModel.id item = Some item.
Proof.
  intros Hnodup Hin. unfold canonical.
  apply elem_of_list_to_map.
  - by rewrite <- list_fmap_compose.
  - apply list_elem_of_fmap. by exists item.
Qed.

(** X7. When the ids of the catalogue are pairwise distinct, every
    record the catalogue lists is the one [loadProduct] returns for its
    id. *)
Theorem loadProduct_of_listed (this : FakeItemsAPI.t)
    (listed : IList.t IItemModel.t) (item : IItemModel.t) :
  NoDup (IItemModel.id <$> FakeItemsAPI.data this) →
  FakeItemsAPI.loadItemsList this = Resolved listed →
  item ∈ IList.items listed →
  FakeItemsAPI.loadProduct this (IItemModel.id item) = Resolved (inl item).
Proof.
  intros Hnodup [= <-] Hin. cbn [IList.items] in Hin.
  by rewrite loadProduct_canonical, canonical_NoDup.
Qed.

Lemma loadProduct_of_listed_witness :
  FakeItemsAPI.loadProduct FakeItemsAPI.new (js "4")
  = Resolved (inl (IItemModel.mk (js "4") (js "Товар 4") 4
                     (js "Категория 4") (js "Image 4.jpg") (js "Описание 4"))).
Proof.
  apply (loadProduct_of_listed FakeItemsAPI.new
           {| IList.total := 10;
              IList.items := FakeItemsAPI.data FakeItemsAPI.new |}
           (IItemModel.mk (js "4") (js "Товар 4") 4
              (js "Категория 4") (js "Image 4.jpg") (js "Описание 4"))).
  - apply (bool_decide_unpack _). vm_compute. reflexivity.
  - reflexivity.
  - apply list_elem_of_In. vm_compute. do 4 right. left. reflexivity.
Defined.

(** X8. Product lookup and order validation agree on which ids exist:
    for an order with a non-empty address and the single item [id],
    [postOrder] answers that the item is not found exactly when
    [loadProduct] answers [NotFound] for that id. *)
Theorem loadProduct_agrees_with_postOrder (this : FakeItemsAPI.t)
    (orderInfo : IOrderInfo.t) (a id : JSString) :
  IOrderInfo.address orderInfo = Some a → a ≠ [] →
  IOrderInfo.items orderInfo = [id] →
  FakeItemsAPI.postOrder this orderInfo = rejected (ItemNotFound id)
  ↔ FakeItemsAPI.loadProduct this id
    = Resolved (inr {| ErrorResponse.error := js "NotFound" |}).
Proof.
  intros Ha Hne Hitems.
  rewrite (postOrder_after_address _ _ a), Hitems, checkItems_cons by done.
  rewrite loadProduct_canonical.
  destruct (canonical (FakeItemsAPI.data this) !! id) as [item|] eqn:Hid.
  - rewrite bool_decide_eq_true_2 by done. cbn [FakeItemsAPI.checkItems].
    split; [|done]. unfold rejected, confirmed.
    destruct (FakeItemsAPI.calculatedTotal this [id]) as [sum|]; [|done].
    cbn [mbind option_bind].
    destruct (sum =? _); [done | by intros [= ?]].
  - rewrite bool_decide_eq_false_2 by (by intros [? ?]). done.
Qed.

Lemma loadProduct_agrees_with_postOrder_witness :
  FakeItemsAPI.postOrder FakeItemsAPI.new
    (order (Some (js "Lenina 1")) 0 [js "99"])
  = rejected (ItemNotFound (js "99"))
  ↔ FakeItemsAPI.loadProduct FakeItemsAPI.new (js "99")
    = Resolved (inr {| ErrorResponse.error := js "NotFound" |}).
Proof.
  apply (loadProduct_agrees_with_postOrder FakeItemsAPI.new
           (order (Some (js "Lenina 1")) 0 [js "99"]) (js "Lenina 1")).
  - reflexivity.
  - discriminate.
  - reflexivity.
Defined.

(** * Further properties of the basket *)

Lemma splice_remove_one {T} (arr : list T) (start : Z) :
  splice arr start 1 = arr
  ∨ ∃ k, (k < length arr)%nat
         ∧ splice arr start 1 = take k arr ++ drop (S k) arr.
Proof.
  destruct (Z.ltb_spec start 0) as [Hneg|Hpos].
  - destruct arr as [|x arr].
    { left. unfold splice. by rewrite take_nil, drop_nil. }
    right.
    exists (Z.to_nat (Z.max (Z.of_nat (length (x :: arr)) + start) 0)).
    split; [cbn [length]; lia|].
    unfold splice. destruct (Z.ltb_spec start 0); [|lia].
    rewrite (Z.max_l 1 0), (Z.min_l 1) by (cbn [length]; lia).
    do 2 f_equal. cbn [length]. lia.
  - destruct (Z.ltb_spec start (Z.of_nat (length arr))).
    + right. exists (Z.to_nat start). split; [lia|].
      by apply splice_in_range.
    + left. by apply splice_beyond.
Qed.

Lemma remove_at_sublist {T} (arr : list T) (k : nat) :
  take k arr ++ drop (S k) arr `sublist_of` arr.
Proof.
  rewrite <- (take_drop k arr) at 3.
  apply sublist_app; [done|].
  replace (S k) with (k + 1)%nat by lia.
  rewrite <- drop_drop. apply sublist_drop.
Qed.

Lemma delete_any_index_parts (this : BasketList.t)
    (arr : list BasketItem.t) (itemIndex : Z) :
  AbstractList._items this = Some arr →
  ∃ arr',
    fst (BasketList.delete this itemIndex)
    = {| AbstractList.total := AbstractList.total this;
         AbstractList._items := Some arr' |}
    ∧ arr' `sublist_of` arr
    ∧ (length arr ≤ S (length arr'))%nat.
Proof.
  intros Harr. exists (splice arr itemIndex 1).
  unfold BasketList.delete. rewrite Harr. split; [done|].
  destruct (splice_remove_one arr itemIndex) as [-> | (k & Hk & ->)].
  - split; [done|lia].
  - split; [apply remove_at_sublist|].
    rewrite remove_at_length by done. lia.
Qed.

(** X9. Whatever integer the index is, [delete] on an assigned array
    returns normally and removes at most one element: what is left is
    the old sequence with at most one element taken out, the others in
    their old order, and the [total] field is the one before the call. *)
Theorem delete_any_index (this : BasketList.t) (arr : list BasketItem.t)
    (itemIndex : Z) :
  AbstractList._items this = Some arr →
  ∃ arr',
    BasketList.delete this itemIndex
    = ({| AbstractList.total := AbstractList.total this;
          AbstractList._items := Some arr' |}, Normal tt)
    ∧ arr' `sublist_of` arr
    ∧ (length arr ≤ S (length arr'))%nat.
Proof.
  intros Harr. exists (splice arr itemIndex 1).
  unfold BasketList.delete. rewrite Harr. split; [done|].
  destruct (splice_remove_one arr itemIndex) as [-> | (k & Hk & ->)].
  - split; [done|lia].
  - split; [apply remove_at_sublist|].
    rewrite remove_at_length by done. lia.
Qed.

Lemma delete_any_index_witness :
  ∃ arr',
    BasketList.delete (basketOf [itemA; itemB; itemC]) (-2)
    = (basketOf arr', Normal tt)
    ∧ arr' `sublist_of` [itemA; itemB; itemC]
    ∧ (3 ≤ S (length arr'))%nat.
Proof.
  apply (delete_any_index (basketOf [itemA; itemB; itemC])
           [itemA; itemB; itemC] (-2)).
  reflexivity.
Defined.

(** X10. A negative index is not refused: on a basket that is not empty
    [delete] with a negative index always removes exactly one element,
    the one counted from the end of the sequence, and the first one when
    the index reaches further back than the sequence is long. *)
Theorem delete_negative_index_removes (this : BasketList.t)
    (arr : list BasketItem.t) (itemIndex : Z) :
  AbstractList._items this = Some arr →
  arr ≠ [] →
  itemIndex < 0 →
  let k := Z.to_nat (Z.max (Z.of_nat (length arr) + itemIndex) 0) in
  (k < length arr)%nat
  ∧ BasketList.delete this itemIndex
    = ({| AbstractList.total := AbstractList.total this;
          AbstractList._items := Some (take k arr ++ drop (S k) arr) |},
       Normal tt)
  ∧ length (take k arr ++ drop (S k) arr) = pred (length arr).
Proof.
  intros Harr Hne Hneg k.
  assert (0 < length arr)%nat as Hlen by (destruct arr; [done|cbn; lia]).
  assert (k < length arr)%nat as Hk by (subst k; lia).
  split; [done|]. split; [|by apply remove_at_length].
  unfold BasketList.delete. rewrite Harr. do 3 f_equal.
  unfold splice. destruct (Z.ltb_spec itemIndex 0); [|lia].
  rewrite (Z.max_l 1 0), (Z.min_l 1) by lia.
  subst k. do 2 f_equal. lia.
Qed.

Lemma delete_negative_index_removes_witness :
  (0 < 3)%nat
  ∧ BasketList.delete (basketOf [itemA; itemB; itemC]) (-5)
    = (basketOf [itemB; itemC], Normal tt)
  ∧ length [itemB; itemC] = 2%nat.
Proof.
  apply (delete_negative_index_removes (basketOf [itemA; itemB; itemC])
           [itemA; itemB; itemC] (-5)).
  - reflexivity.
  - discriminate.
  - lia.
Defined.

(** X11. [addItem] followed by [delete] of the new last position gives
    the basket back as it was; the position may be given as the old
    length or as [-1]. *)
Theorem addItem_then_delete (this : BasketList.t) (arr : list BasketItem.t)
    (item : BasketItem.t) :
  AbstractList._items this = Some arr →
  ∃ added,
    BasketList.addItem this item = (added, Normal tt)
    ∧ AbstractList.items added = Some (arr ++ [item])
    ∧ BasketList.delete added (Z.of_nat (length arr)) = (this, Normal tt)
    ∧ BasketList.delete added (-1) = (this, Normal tt).
Proof.
  intros Harr. unfold BasketList.addItem. rewrite Harr.
  eexists. split; [done|]. split; [done|].
  unfold BasketList.delete. cbn [AbstractList._items AbstractList.total].
  assert (splice (arr ++ [item]) (Z.of_nat (length arr)) 1 = arr) as Hlast.
  { rewrite splice_in_range by (rewrite length_app; cbn [length]; lia).
    rewrite Nat2Z.id, take_app_length.
    rewrite drop_ge by (rewrite length_app; cbn [length]; lia).
    apply app_nil_r. }
  split.
  - by rewrite Hlast, with_items_same.
  - rewrite splice_from_end_of by (rewrite length_app; cbn [length]; lia).
    replace (Z.of_nat (length (arr ++ [item])) + -1)
      with (Z.of_nat (length arr)) by (rewrite length_app; cbn [length]; lia).
    by rewrite Hlast, with_items_same.
Qed.

Lemma addItem_then_delete_witness :
  ∃ added,
    BasketList.addItem (basketOf [itemA; itemB]) itemC = (added, Normal tt)
    ∧ AbstractList.items added = Some ([itemA; itemB] ++ [itemC])
    ∧ BasketList.delete added 2 = (basketOf [itemA; itemB], Normal tt)
    ∧ BasketList.delete added (-1) = (basketOf [itemA; itemB], Normal tt).
Proof.
  apply (addItem_then_delete (basketOf [itemA; itemB]) [itemA; itemB] itemC).
  reflexivity.
Defined.

Lemma call_assigned (this : BasketList.t) (arr : list BasketItem.t)
    (c : BasketCall) :
  AbstractList._items this = Some arr →
  ∃ arr',
    fst (call this c)
    = {| AbstractList.total := AbstractList.total this;
         AbstractList._items := Some arr' |}
    ∧ match c with
      | addItemCall item => arr' = arr ++ [item]
      | deleteCall _ =>
        arr' `sublist_of` arr ∧ (length arr ≤ S (length arr'))%nat
      end.
Proof.
  intros Harr. destruct c as [item|itemIndex]; cbn [call].
  - unfold BasketList.addItem. rewrite Harr. by eexists.
  - destruct (delete_any_index_parts this arr itemIndex Harr)
      as (arr' & -> & Hsub & Hlen).
    by exists arr'.
Qed.

(** X12. Counting over any sequence of [addItem] and [delete] calls on an
    assigned array: the basket stays assigned and its [total] field is
    never touched; the final length is at most the old length plus the
    number of [addItem] calls and at least that minus the number of
    [delete] calls; and every item left was in the basket at the start or
    was passed to one of the [addItem] calls. *)
Theorem afterCalls_assigned (cs : list BasketCall) (this : BasketList.t)
    (arr : list BasketItem.t) :
  AbstractList._items this = Some arr →
  ∃ arr',
    afterCalls this cs
    = {| AbstractList.total := AbstractList.total this;
         AbstractList._items := Some arr' |}
    ∧ (length arr' ≤ length arr
                     + length (filter (λ c, isAddItemCall c = true) cs))%nat
    ∧ (length arr + length (filter (λ c, isAddItemCall c = true) cs)
       ≤ length arr'
         + length (filter (λ c, isAddItemCall c = false) cs))%nat
    ∧ Forall (λ item, item ∈ arr ∨ addItemCall item ∈ cs) arr'.
Proof.
  revert this arr. induction cs as [|c cs IH]; intros this arr Harr.
  - exists arr. rewrite !filter_nil. cbn [afterCalls fold_left length].
    split; [by rewrite with_items_same|]. split; [lia|]. split; [lia|].
    apply Forall_forall. by left.
  - destruct (call_assigned this arr c Harr) as (mid & Hcall & Hmid).
    unfold afterCalls. cbn [fold_left]. fold (afterCalls (fst (call this c)) cs).
    rewrite Hcall.
    destruct (IH {| AbstractList.total := AbstractList.total this;
                    AbstractList._items := Some mid |} mid eq_refl)
      as (arr' & -> & Hupper & Hlower & Hfrom).
    exists arr'. cbn [AbstractList.total]. split; [done|].
    rewrite !filter_cons.
    destruct c as [item|itemIndex]; cbn [isAddItemCall].
    + subst mid. rewrite length_app in Hupper, Hlower. cbn [length] in *.
      rewrite decide_True, decide_False by done. cbn [length].
      split; [lia|]. split; [lia|].
      eapply Forall_impl; [exact Hfrom|]. intros x [Hx | Hx].
      * apply elem_of_app in Hx as [Hx | ->%list_elem_of_singleton].
        -- by left.
        -- right. by left.
      * right. by right.
    + destruct Hmid as [Hsub Hlen].
      pose proof (sublist_length _ _ Hsub).
      rewrite decide_False, decide_True by done. cbn [length].
      split; [lia|]. split; [lia|].
      eapply Forall_impl; [exact Hfrom|]. intros x [Hx | Hx].
      * left. by eapply elem_of_sublist.
      * right. by right.
Qed.

Lemma afterCalls_assigned_witness :
  ∃ arr',
    afterCalls (basketOf [itemA])
      [addItemCall itemB; deleteCall 5; addItemCall itemC; deleteCall 0]
    = basketOf arr'
    ∧ (length arr' ≤ 1 + 2)%nat
    ∧ (1 + 2 ≤ length arr' + 2)%nat
    ∧ Forall (λ item,
                item ∈ [itemA]
                ∨ addItemCall item
                  ∈ [addItemCall itemB; deleteCall 5; addItemCall itemC;
                     deleteCall 0]) arr'.
Proof.
  apply (afterCalls_assigned
           [addItemCall itemB; deleteCall 5; addItemCall itemC; deleteCall 0]
           (basketOf [itemA]) [itemA]).
  reflexivity.
Defined.

(** X13. A basket whose array was never assigned, a newly constructed
    one in particular, cannot be brought to life through its own
    methods: every [addItem] and [delete] throws a [TypeError], the
    basket after any sequence of such calls is the basket before it, and
    the basket popup's [getTotal] on it throws as well. *)
Theorem afterCalls_unassigned (cs : list BasketCall) (this : BasketList.t) :
  AbstractList._items this = None →
  afterCalls this cs = this
  ∧ Forall (λ c, call this c = (this, Throw TypeError)) cs
  ∧ BasketPopup.getTotal (BasketPopup.new this) = Some (Throw TypeError).
Proof.
  intros Hnone.
  assert (∀ c, call this c = (this, Throw TypeError)) as Hcall.
  { intros [item|itemIndex]; cbn [call];
      unfold BasketList.addItem, BasketList.delete; by rewrite Hnone. }
  split; [|split].
  - induction cs as [|c cs IH]; [done|].
    unfold afterCalls in *. cbn [fold_left]. by rewrite Hcall.
  - apply Forall_forall. auto.
  - unfold BasketPopup.getTotal, AbstractList.items.
    cbn [BasketPopup.new BasketPopup.list]. by rewrite Hnone.
Qed.

Lemma afterCalls_unassigned_witness :
  afterCalls BasketList.new [addItemCall itemA; deleteCall 0] = BasketList.new
  ∧ Forall (λ c, call BasketList.new c = (BasketList.new, Throw TypeError))
      [addItemCall itemA; deleteCall 0]
  ∧ BasketPopup.getTotal (BasketPopup.new BasketList.new)
    = Some (Throw TypeError).
Proof.
  apply (afterCalls_unassigned [addItemCall itemA; deleteCall 0]
           BasketList.new).
  reflexivity.
Defined.

(** * Further properties of the basket total *)

Lemma getTotal_assigned (this : BasketList.t) (arr : list BasketItem.t) :
  AbstractList._items this = Some arr →
  BasketPopup.getTotal (BasketPopup.new this)
  = Normal
      <$> fold_left (λ total item,
                       total ≫= λ total, add total (BasketItem.price item))
                    arr (Some 0).
Proof.
  intros Harr. unfold BasketPopup.getTotal, AbstractList.items.
  cbn [BasketPopup.new BasketPopup.list]. by rewrite Harr.
Qed.

Lemma sum_prices_app (items items' : list BasketItem.t) :
  foldr (λ item sum, BasketItem.price item + sum) 0 (items ++ items')
  = foldr (λ item sum, BasketItem.price item + sum) 0 items
    + foldr (λ item sum, BasketItem.price item + sum) 0 items'.
Proof.
  induction items as [|item items IH]; [done|].
  cbn [app foldr]. rewrite IH. lia.
Qed.

(** Within the bound the basket's [reduce] performs no rounding: it
    returns the exact sum of the prices. *)
Lemma basket_reduce_exact (P : Z) (items : list BasketItem.t) (acc : Z) :
  Forall (λ item, 0 ≤ BasketItem.price item ≤ P) items →
  0 ≤ acc → acc + P * Z.of_nat (length items) ≤ 2 ^ 53 →
  0 ≤ foldr (λ item sum, BasketItem.price item + sum) 0 items
    ≤ P * Z.of_nat (length items)
  ∧ fold_left (λ total item,
                 total ≫= λ total, add total (BasketItem.price item))
              items (Some acc)
    = Some (acc + foldr (λ item sum, BasketItem.price item + sum) 0 items).
Proof.
  intros Hpriced. revert acc.
  induction Hpriced as [|item items Hprice _ IH]; intros acc Hacc Hbound.
  - cbn [length foldr fold_left]. split; [lia|]. f_equal. lia.
  - cbn [length] in Hbound.
    destruct (IH (acc + BasketItem.price item)) as [Hrange Hfold]; [lia|nia|].
    cbn [foldr fold_left length mbind option_bind]. split; [nia|].
    rewrite add_within by nia. rewrite Hfold. f_equal. lia.
Qed.

(** X14. On an assigned array whose prices and the price of the new item
    lie between 0 and [P], with [P] times the new length at most 2^53,
    [getTotal] returns normally; it is 0 for an empty basket, and after
    [addItem] it is the total before plus the price of the item added. *)
Theorem getTotal_addItem (this : BasketList.t) (arr : list BasketItem.t)
    (item : BasketItem.t) (P : Z) :
  AbstractList._items this = Some arr →
  Forall (λ item, 0 ≤ BasketItem.price item ≤ P) (arr ++ [item]) →
  P * Z.of_nat (length (arr ++ [item])) ≤ 2 ^ 53 →
  ∃ total,
    BasketPopup.getTotal (BasketPopup.new this) = Some (Normal total)
    ∧ (arr = [] → total = 0)
    ∧ BasketPopup.getTotal
        (BasketPopup.new (fst (BasketList.addItem this item)))
      = Some (Normal (total + BasketItem.price item)).
Proof.
  intros Harr Hpriced Hbound.
  pose proof Hpriced as [Harrp [Hitem _]%Forall_cons]%Forall_app.
  rewrite length_app in Hbound. cbn [length] in Hbound.
  destruct (basket_reduce_exact P arr 0 Harrp) as [Hrange Hsum]; [lia|nia|].
  destruct (basket_reduce_exact P (arr ++ [item]) 0 Hpriced) as [_ Hsum'];
    [lia | rewrite length_app; cbn [length]; lia |].
  exists (foldr (λ item sum, BasketItem.price item + sum) 0 arr).
  split; [by rewrite (getTotal_assigned _ arr), Hsum|]. split.
  - by intros ->.
  - unfold BasketList.addItem. rewrite Harr. cbn [fst].
    rewrite (getTotal_assigned _ (arr ++ [item])), Hsum' by done.
    rewrite sum_prices_app. cbn [foldr fmap option_fmap option_map].
    do 2 f_equal. lia.
Qed.

Lemma getTotal_addItem_witness :
  ∃ total,
    BasketPopup.getTotal (BasketPopup.new (basketOf [])) = Some (Normal total)
    ∧ (@nil BasketItem.t = [] → total = 0)
    ∧ BasketPopup.getTotal
        (BasketPopup.new (fst (BasketList.addItem (basketOf []) itemC)))
      = Some (Normal (total + 3)).
Proof.
  apply (getTotal_addItem (basketOf []) [] itemC 3).
  - reflexivity.
  - repeat (constructor; [cbn; lia|]). constructor.
  - cbn. lia.
Defined.

(** X15. On an assigned array whose prices lie between 0 and [P], with
    [P] times its length at most 2^53: after [delete] of a position that
    holds an item, [getTotal] is the total before minus the price of that
    item. *)
Theorem getTotal_delete (this : BasketList.t) (arr : list BasketItem.t)
    (itemIndex : Z) (removed : BasketItem.t) (P : Z) :
  AbstractList._items this = Some arr →
  0 ≤ itemIndex →
  arr !! Z.to_nat itemIndex = Some removed →
  Forall (λ item, 0 ≤ BasketItem.price item ≤ P) arr →
  P * Z.of_nat (length arr) ≤ 2 ^ 53 →
  ∃ total,
    BasketPopup.getTotal (BasketPopup.new this) = Some (Normal total)
    ∧ BasketPopup.getTotal
        (BasketPopup.new (fst (BasketList.delete this itemIndex)))
      = Some (Normal (total - BasketItem.price removed)).
Proof.
  intros Harr Hpos Hremoved Hpriced Hbound.
  pose proof (lookup_lt_Some _ _ _ Hremoved) as Hlt.
  assert (0 ≤ P) as HP.
  { rewrite Forall_forall in Hpriced.
    pose proof (Hpriced removed (list_elem_of_lookup_2 _ _ _ Hremoved)). lia. }
  destruct (basket_reduce_exact P arr 0 Hpriced) as [Hrange Hsum]; [lia|lia|].
  set (rest := take (Z.to_nat itemIndex) arr
               ++ drop (S (Z.to_nat itemIndex)) arr).
  assert (Forall (λ item, 0 ≤ BasketItem.price item ≤ P) rest) as Hrest.
  { rewrite Forall_forall in Hpriced. apply Forall_forall.
    intros item Hitem. apply Hpriced.
    eapply elem_of_sublist; [exact Hitem|]. apply remove_at_sublist. }
  assert (length rest = pred (length arr)) as Hlen
    by (by apply remove_at_length).
  destruct (basket_reduce_exact P rest 0 Hrest) as [_ Hsum']; [lia|nia|].
  exists (foldr (λ item sum, BasketItem.price item + sum) 0 arr).
  split; [by rewrite (getTotal_assigned _ arr), Hsum|].
  unfold BasketList.delete. rewrite Harr. cbn [fst].
  rewrite (getTotal_assigned _ (splice arr itemIndex 1)) by done.
  rewrite splice_in_range by lia. fold rest. rewrite Hsum'.
  cbn [fmap option_fmap option_map]. do 2 f_equal.
  assert (foldr (λ item sum, BasketItem.price item + sum) 0 arr
          = foldr (λ item sum, BasketItem.price item + sum) 0
              (take (Z.to_nat itemIndex) arr
               ++ removed :: drop (S (Z.to_nat itemIndex)) arr)) as ->
    by (by rewrite take_drop_middle).
  subst rest. rewrite !sum_prices_app. cbn [foldr]. lia.
Qed.

Lemma getTotal_delete_witness :
  ∃ total,
    BasketPopup.getTotal (BasketPopup.new (basketOf [itemA; itemB; itemC]))
    = Some (Normal total)
    ∧ BasketPopup.getTotal
        (BasketPopup.new
           (fst (BasketList.delete (basketOf [itemA; itemB; itemC]) 1)))
      = Some (Normal (total - 2)).
Proof.
  apply (getTotal_delete (basketOf [itemA; itemB; itemC])
           [itemA; itemB; itemC] 1 itemB 3).
  - reflexivity.
  - lia.
  - reflexivity.
  - repeat (constructor; [cbn; lia|]). constructor.
  - cbn. lia.
Defined.

Lemma basket_reduce_order (this : FakeItemsAPI.t) (ids : list JSString)
    (products : list IItemModel.t) (acc : option Z) :
  Forall2 (λ id product,
             FakeItemsAPI.loadProduct this id = Resolved (inl product))
          ids products →
  fold_left (λ total item,
               total ≫= λ total, add total (BasketItem.price item))
            (BasketItem.new <$> products) acc
  = fold_left
      (λ sum itemId,
         sum ≫= λ sum,
           add sum (or_zero (IItemModel.price
                               <$> canonical (FakeItemsAPI.data this)
                                   !! itemId)))
      ids acc.
Proof.
  intros Hloaded. revert acc.
  induction Hloaded as [|id product ids products Hid _ IH]; intros acc;
    [done|].
  rewrite loadProduct_canonical in Hid.
  destruct (canonical (FakeItemsAPI.data this) !! id) as [item|] eqn:Hitem;
    [|done].
  injection Hid as ->.
  rewrite fmap_cons. cbn [fold_left]. rewrite IH, Hitem.
  cbn [fmap option_fmap option_map]. by rewrite or_zero_Some.
Qed.

(** X16. From product lookup to a confirmed order: when every ordered id
    is looked up with [loadProduct], the basket holds one basket item
    built from each product found, and the order carries a non-empty
    address, those ids and the basket popup's total, [postOrder] confirms
    it with that total. *)
Theorem basket_order_confirmed (this : FakeItemsAPI.t)
    (ids : list JSString) (products : list IItemModel.t)
    (basket : BasketList.t) (total : Z) (orderInfo : IOrderInfo.t)
    (a : JSString) :
  Forall2 (λ id product,
             FakeItemsAPI.loadProduct this id = Resolved (inl product))
          ids products →
  AbstractList.items basket = Some (BasketItem.new <$> products) →
  BasketPopup.getTotal (BasketPopup.new basket) = Some (Normal total) →
  IOrderInfo.address orderInfo = Some a → a ≠ [] →
  IOrderInfo.items orderInfo = ids →
  IOrderInfo.total orderInfo = total →
  FakeItemsAPI.postOrder this orderInfo
  = confirmed total.
Proof.
  intros Hloaded Hbasket Htotal Ha Hne Hitems Htot.
  rewrite (getTotal_assigned _ _ Hbasket) in Htotal.
  rewrite (basket_reduce_order this ids products _ Hloaded) in Htotal.
  rewrite (postOrder_after_address _ _ a), Hitems by done.
  rewrite checkItems_all_present.
  - unfold FakeItemsAPI.calculatedTotal. rewrite calculatedTotal_canonical.
    destruct (fold_left _ ids (Some 0)) as [sum|]; [|done].
    injection Htotal as ->. cbn [mbind option_bind].
    by rewrite Htot, Z.eqb_refl.
  - clear Htotal Hitems Hbasket.
    induction Hloaded as [|id product ids products Hid _ IH];
      [by constructor|].
    constructor; [|done].
    rewrite loadProduct_canonical in Hid.
    by destruct (canonical (FakeItemsAPI.data this) !! id).
Qed.

Lemma basket_order_confirmed_witness :
  FakeItemsAPI.postOrder FakeItemsAPI.new
    (order (Some (js "Lenina 1")) 7 [js "2"; js "5"])
  = confirmed 7.
Proof.
  apply (basket_order_confirmed FakeItemsAPI.new [js "2"; js "5"]
           [IItemModel.mk (js "2") (js "Товар 2") 2 (js "Категория 2")
              (js "Image 2.jpg") (js "Описание 2");
            IItemModel.mk (js "5") (js "Товар 5") 5 (js "Категория 5")
              (js "Image 5.jpg") (js "Описание 5")]
           (basketOf
              (BasketItem.new
                 <$> [IItemModel.mk (js "2") (js "Товар 2") 2
                        (js "Категория 2") (js "Image 2.jpg")
                        (js "Описание 2");
                      IItemModel.mk (js "5") (js "Товар 5") 5
                        (js "Категория 5") (js "Image 5.jpg")
                        (js "Описание 5")]))
           7 _ (js "Lenina 1")).
  - repeat constructor.
  - reflexivity.
  - reflexivity.
  - reflexivity.
  - discriminate.
  - reflexivity.
  - reflexivity.
Defined.

(** * Further properties of forms *)

Lemma editText_isValid_black (fieldName hint value : JSString) :
  isValid (editText fieldName hint value) = negb (forallb isWhiteSpace value).
Proof.
  cbn [isValid]. destruct (forallb isWhiteSpace value) eqn:Hall.
  - apply trim_nil in Hall. by rewrite Hall.
  - destruct (trim value) eqn:Htrim; [|done].
    apply trim_nil in Htrim. congruence.
Qed.

(** X17. White space around the text does not count: a text field whose
    value is wrapped in any white space is valid exactly when the field
    with the bare value is. *)
Theorem editText_isValid_padding (fieldName hint before value after : JSString) :
  forallb isWhiteSpace before = true →
  forallb isWhiteSpace after = true →
  isValid (editText fieldName hint (before ++ value ++ after))
  = isValid (editText fieldName hint value).
Proof.
  intros Hbefore Hafter.
  rewrite !editText_isValid_black, !forallb_app, Hbefore, Hafter.
  by rewrite andb_true_r.
Qed.

Lemma editText_isValid_padding_witness :
  isValid (editText (js "Email") (js "Введите Email")
             (js "  " ++ js "a@b.c" ++ [0x9; 0xA0; 0x3000]%N))
  = isValid (editText (js "Email") (js "Введите Email") (js "a@b.c")).
Proof.
  apply (editText_isValid_padding (js "Email") (js "Введите Email")
           (js "  ") (js "a@b.c") [0x9; 0xA0; 0x3000]%N).
  - reflexivity.
  - reflexivity.
Defined.

Lemma isValid_value_nonempty (field : IField) (value : JSString) :
  isValid field = true → fieldValue field = Some value → value ≠ [].
Proof.
  destruct field as [name hint text | name choices selected];
    cbn [fieldValue]; intros Hvalid [= ->].
  - rewrite editText_isValid_black in Hvalid. by intros ->.
  - intros ->. by cbn in Hvalid.
Qed.

(** X18. What validation buys the caller of [getFormData]: when the
    form's [isValid] holds, no name of the collected object holds the
    empty string. *)
Theorem getFormData_validated (this : OrderPopup.t)
    (fieldsData : gmap JSString (option JSString))
    (name value : JSString) :
  OrderPopup.isValid this = true →
  OrderPopup.getFormData this = inr fieldsData →
  fieldsData !! name = Some (Some value) →
  value ≠ [].
Proof.
  intros Hvalid Hdata Hname.
  unfold OrderPopup.getFormData, logical_and in Hdata.
  cbn [ToBoolean] in Hdata. injection Hdata as <-.
  rewrite fold_collect_lookup, lookup_empty in Hname.
  case_decide as Hproto; [done|].
  destruct (last _) as [field|] eqn:Hlast; [|done].
  injection Hname as Hvalue.
  apply last_Some_elem_of, list_elem_of_filter in Hlast as [_ Hin].
  unfold OrderPopup.isValid in Hvalid. rewrite forallb_forall in Hvalid.
  apply (isValid_value_nonempty field); [|done].
  apply Hvalid. by apply list_elem_of_In.
Qed.

Lemma getFormData_validated_witness :
  js "Lenina 1" ≠ [].
Proof.
  apply (getFormData_validated
           {| OrderPopup.bottomButtonText := js "Далее";
              OrderPopup.fields :=
                [radioButton (js "Способ оплаты")
                   [js "Онлайн"; js "При получении"] (Some (js "Онлайн"));
                 editText (js "Адрес доставки") (js "Введите адрес")
                   (js "Lenina 1")] |}
           (<[js "Адрес доставки" := Some (js "Lenina 1")]>
              (<[js "Способ оплаты" := Some (js "Онлайн")]> ∅))
           (js "Адрес доставки") (js "Lenina 1")).
  - reflexivity.
  - vm_compute. reflexivity.
  - vm_compute. reflexivity.
Defined.

Lemma fold_collect_dom (fields : list IField)
    (fieldsData : gmap JSString (option JSString)) :
  dom (fold_left OrderPopup.collect fields fieldsData)
  = dom fieldsData
    ∪ list_to_set (filter (λ name, name ≠ js "__proto__")
                          (fieldName <$> fields)).
Proof.
  revert fieldsData.
  induction fields as [|field fields IH]; intros fieldsData.
  - cbn [fold_left fmap list_fmap]. rewrite filter_nil.
    cbn [list_to_set]. by rewrite (right_id_L ∅ (∪)).
  - cbn [fold_left]. rewrite IH, collect_assign, fmap_cons, filter_cons.
    unfold OrderPopup.assign, strict_eq.
    case_bool_decide as Hproto.
    + by rewrite decide_False by (by intros ?).
    + rewrite decide_True by done. rewrite dom_insert_L.
      cbn [list_to_set]. by rewrite (assoc_L (∪)), (comm_L (∪) {[_]}).
Qed.

Lemma size_list_to_set_le (names : list JSString) :
  (size (list_to_set names : gset JSString) ≤ length names)%nat.
Proof.
  induction names as [|name names IH]; cbn [list_to_set length].
  - by rewrite size_empty.
  - rewrite size_union_alt, size_singleton.
    pose proof (subseteq_size (list_to_set names ∖ {[name]})
                  (list_to_set names : gset JSString)) as Hsub.
    assert (list_to_set names ∖ {[name]} ⊆ (list_to_set names : gset JSString))
      as Hincl by apply subseteq_difference_l, reflexivity.
    specialize (Hsub Hincl). lia.
Qed.

(** X19. The keys of the collected object are exactly the names of the
    form's fields other than [__proto__], so the object has at most as
    many keys as the form has fields. *)
Theorem getFormData_keys (this : OrderPopup.t) :
  ∃ fieldsData : gmap JSString (option JSString),
    OrderPopup.getFormData this = inr fieldsData
    ∧ dom fieldsData
      = list_to_set (filter (λ name, name ≠ js "__proto__")
                            (fieldName <$> OrderPopup.fields this))
    ∧ (size fieldsData ≤ length (OrderPopup.fields this))%nat.
Proof.
  eexists. split; [reflexivity|].
  assert (dom (fold_left OrderPopup.collect (OrderPopup.fields this) ∅)
          = list_to_set (filter (λ name, name ≠ js "__proto__")
                                (fieldName <$> OrderPopup.fields this)))
    as Hdom.
  { by rewrite fold_collect_dom, dom_empty_L, (left_id_L ∅ (∪)). }
  split; [done|].
  rewrite <- size_dom, Hdom, <- (length_fmap fieldName).
  etrans; [apply size_list_to_set_le|]. apply length_filter.
Qed.

(** X20. A form is valid exactly when every text field holds at least one
    code unit that is not white space and no choice field has the empty
    string selected (a choice field with nothing set passes). The empty
    form is valid. *)
Theorem OrderPopup_isValid_iff (this : OrderPopup.t) :
  OrderPopup.isValid this = true
  ↔ Forall (λ field,
              match field with
              | editText _ _ value => ∃ c, c ∈ value ∧ isWhiteSpace c = false
              | radioButton _ _ selected => selected ≠ Some []
              end) (OrderPopup.fields this).
Proof.
  unfold OrderPopup.isValid. rewrite forallb_forall, Forall_forall.
  apply forall_proper. intros field. rewrite <- list_elem_of_In.
  apply forall_proper. intros _.
  destruct field as [name hint value | name choices selected].
  - rewrite editText_isValid_black, negb_true_iff. split.
    + intros (c & Hc & Hws)%forallb_false_elem. eauto.
    + intros (c & Hc & Hws). destruct (forallb _ value) eqn:Hall; [|done].
      rewrite forallb_forall in Hall. apply list_elem_of_In in Hc.
      rewrite (Hall c Hc) in Hws. done.
  - cbn [isValid]. by rewrite negb_true_iff, bool_decide_eq_false.
Qed.

(** X21. A form as the factories build it is not valid while it has a
    field: every field starts with the empty string as its value, which
    is also what [getFormData] then collects under each field name other
    than [__proto__]. *)
Theorem created_form_invalid (bottomButtonText : JSString)
    (fields : list IField) (field : IField) :
  Forall (λ field,
            (∃ name hint, field = createEditTextField name hint)
            ∨ (∃ name choices, field = createRadioButtonField name choices))
         fields →
  field ∈ fields →
  fieldName field ≠ js "__proto__" →
  OrderPopup.isValid (OrderPopup.mk bottomButtonText fields) = false
  ∧ ∃ fieldsData : gmap JSString (option JSString),
      OrderPopup.getFormData (OrderPopup.mk bottomButtonText fields)
      = inr fieldsData
      ∧ fieldsData !! fieldName field = Some (Some []).
Proof.
  intros Hcreated Hin Hproto.
  assert (∀ other, other ∈ fields →
            isValid other = false ∧ fieldValue other = Some []) as Hfresh.
  { intros other Hother.
    rewrite Forall_forall in Hcreated.
    by destruct (Hcreated other Hother)
      as [(name & hint & ->) | (name & choices & ->)]. }
  split.
  - unfold OrderPopup.isValid. cbn [OrderPopup.fields].
    destruct (forallb _ fields) eqn:Hall; [|done].
    rewrite forallb_forall in Hall.
    rewrite <- (Hall field) by (by apply list_elem_of_In).
    by apply Hfresh.
  - eexists. split; [reflexivity|].
    cbn [OrderPopup.fields]. rewrite fold_collect_lookup, decide_False by done.
    destruct (last _) as [other|] eqn:Hlast.
    + apply last_Some_elem_of, list_elem_of_filter in Hlast as [_ Hother].
      f_equal. by apply Hfresh.
    + apply last_None in Hlast.
      assert (field ∈ filter (λ other, fieldName other = fieldName field)
                             fields) as Hfield
        by (by apply list_elem_of_filter).
      rewrite Hlast in Hfield. by apply elem_of_nil in Hfield.
Qed.

Lemma created_form_invalid_witness :
  OrderPopup.isValid orderPopup1 = false
  ∧ ∃ fieldsData : gmap JSString (option JSString),
      OrderPopup.getFormData orderPopup1 = inr fieldsData
      ∧ fieldsData !! js "Адрес доставки" = Some (Some []).
Proof.
  apply (created_form_invalid (js "Далее")
           [createRadioButtonField (js "Способ оплаты")
              [js "Онлайн"; js "При получении"];
            createEditTextField (js "Адрес доставки") (js "Введите адрес")]
           (createEditTextField (js "Адрес доставки") (js "Введите адрес"))).
  - constructor; [right; by eexists _, _|].
    constructor; [left; by eexists _, _|]. constructor.
  - right. left.
  - by vm_compute.
Defined.

(** * From the loaded catalogue to a confirmed order *)

Lemma expectedTotal_chosen (data : list IItemModel.t)
    (chosen : list IItemModel.t) :
  NoDup (IItemModel.id <$> data) →
  Forall (λ item, item ∈ data) chosen →
  expectedTotal (canonical data) (IItemModel.id <$> chosen)
  = Some (foldr (λ item sum, IItemModel.price item + sum) 0 chosen).
Proof.
  intros Hnodup. induction 1 as [|item chosen Hin _ IH]; [done|].
  rewrite fmap_cons. cbn [expectedTotal foldr].
  by rewrite canonical_NoDup, IH.
Qed.

(** X22. When the ids of the collaborator's catalogue are pairwise
    distinct and its prices lie between 0 and [P], any selection of items
    of the catalogue that [load] has filled, repeats allowed, with [P]
    times the number of selected items at most 2^53, makes an order that
    [postOrder] confirms: the ids of the selected catalogue items with
    the sum of their prices as total, under a non-empty address. *)
Theorem catalog_selection_confirmed (this : FakeItemsAPI.t)
    (catalog : CatalogList.t) (items chosen : list CatalogItem.t)
    (orderInfo : IOrderInfo.t) (a : JSString) (P : Z) :
  NoDup (IItemModel.id <$> FakeItemsAPI.data this) →
  pricedWithin P (FakeItemsAPI.data this) →
  P * Z.of_nat (length chosen) ≤ 2 ^ 53 →
  CatalogList.load (CatalogList.new (FakeItemsAPI.api this))
  = (catalog, Resolved tt) →
  LoadList.items catalog = Some items →
  Forall (λ item, item ∈ items) chosen →
  IOrderInfo.address orderInfo = Some a → a ≠ [] →
  IOrderInfo.items orderInfo = CatalogItem.id <$> chosen →
  IOrderInfo.total orderInfo
  = foldr (λ item sum, CatalogItem.price item + sum) 0 chosen →
  FakeItemsAPI.postOrder this orderInfo
  = confirmed (IOrderInfo.total orderInfo).
Proof.
  intros Hnodup Hpriced Hbound [= <-] [= <-] Hchosen Ha Hne Hitems Htotal.
  apply (confirmed_iff_expected this P); [done| |].
  { by rewrite Hitems, length_fmap. }
  split; [done|].
  split; [apply not_string_false; eauto|].
  assert (∃ raw, Forall (λ item, item ∈ FakeItemsAPI.data this) raw
                 ∧ chosen = CatalogItem.new <$> raw) as (raw & Hraw & ->).
  { clear Hitems Htotal Hbound. induction Hchosen as [|item chosen Hin _ IH].
    - by exists [].
    - destruct IH as (raw & Hraw & ->).
      apply list_elem_of_fmap in Hin as (record & -> & Hrecord).
      exists (record :: raw). split; [by constructor|done]. }
  rewrite Hitems, Htotal, <- list_fmap_compose.
  rewrite (expectedTotal_chosen _ raw) by done.
  f_equal. clear. induction raw as [|record raw IH]; [done|].
  rewrite fmap_cons. cbn [foldr]. by rewrite IH.
Qed.

Lemma catalog_selection_confirmed_witness :
  FakeItemsAPI.postOrder FakeItemsAPI.new
    (order (Some (js "Lenina 1")) 6 [js "3"; js "3"])
  = confirmed 6.
Proof.
  apply (catalog_selection_confirmed FakeItemsAPI.new catalogLoadList
           (CatalogItem.new <$> FakeItemsAPI.data FakeItemsAPI.new)
           [CatalogItem.mk (js "3") (js "Товар 3") 3 (js "Категория 3")
              (js "Image 3.jpg") (js "Описание 3");
            CatalogItem.mk (js "3") (js "Товар 3") 3 (js "Категория 3")
              (js "Image 3.jpg") (js "Описание 3")]
           (order (Some (js "Lenina 1")) 6 [js "3"; js "3"])
           (js "Lenina 1") 9).
  - apply (bool_decide_unpack _). vm_compute. reflexivity.
  - repeat (constructor; [cbn; lia|]). constructor.
  - cbn. lia.
  - reflexivity.
  - reflexivity.
  - repeat constructor;
      apply list_elem_of_In; vm_compute; do 3 right; left; reflexivity.
  - reflexivity.
  - discriminate.
  - reflexivity.
  - reflexivity.
Defined.
